(** * Cluster bootstrap of the cluster-test harness (cluster_builder.rs)

    Shallow embedding of [ClusterBuilder::setup_cluster] and the functions
    it calls.  Every remote operation (scheduler, pool scaler, secret store,
    genesis tool, file copy) is a call to an external oracle [answer], which
    sees the history of calls made so far; the run records each call and its
    reply in a trace.  [try_join_all] and the [for] loops are run in index
    order, stopping at the first error: the futures of one batch touch
    disjoint nodes, so this is one admissible schedule of the source. *)

From Stdlib Require Import String List ZArith Lia Bool Arith.
Import ListNotations.
Open Scope string_scope.
Open Scope list_scope.

(** [format!] of a sequence of pieces. *)
Definition cat (l : list string) : string := String.concat EmptyString l.

(** ** Data model *)

Record KubeNode := mkKubeNode {
  name : string;
  provider_id : string;
  internal_ip : string
}.

(** [libra_network_address::NetworkAddress]: the parsed form of an address
    string; the parser itself is external ([parse_addr] below). *)
Definition NetworkAddress := string.

Record ValidatorGroup := mkValidatorGroup { vg_index : Z }.

Definition new_for_index (i : Z) : ValidatorGroup := {| vg_index := i |}.

Record ValidatorConfig := mkValidatorConfig {
  vc_num_validators : Z;
  vc_num_fullnodes : Z;
  vc_enable_lsr : bool;
  vc_image_tag : string;
  vc_config_overrides : list string;
  vc_seed_peer_ip : string;
  vc_safety_rules_addr : option string
}.

Record FullnodeConfig := mkFullnodeConfig {
  fc_fullnode_index : Z;
  fc_num_fullnodes_per_validator : Z;
  fc_num_validators : Z;
  fc_image_tag : string;
  fc_config_overrides : list string;
  fc_seed_peer_ip : string
}.

Record LSRConfig := mkLSRConfig {
  lsr_num_validators : Z;
  lsr_image_tag : string;
  lsr_lsr_backend : string
}.

Inductive ApplicationConfig :=
| Validator (c : ValidatorConfig)
| Fullnode (c : FullnodeConfig)
| Vault
| LSR (c : LSRConfig).

Record InstanceConfig := mkInstanceConfig {
  validator_group : ValidatorGroup;
  application_config : ApplicationConfig
}.

Record Instance := mkInstance { peer_name : string; ip : string }.

Record Layout := mkLayout {
  owners : list string;
  operators : list string;
  libra_root : list string
}.

(** [ClusterBuilderParams]; the u32 fields are integers in [0, 2^32). The
    field [enable_lsr] is [enable_lsr_arg] here, as the method of the same
    name is [enable_lsr] below. *)
Record ClusterBuilderParams := mkParams {
  fullnodes_per_validator : Z;
  cfg : list string;
  num_validators : Z;
  enable_lsr_arg : option bool;
  lsr_backend : string
}.

Definition cfg_overrides (p : ClusterBuilderParams) : list string :=
  let overrides := ["prune_window=50000"%string] in
  overrides ++ cfg p.

Definition enable_lsr (p : ClusterBuilderParams) : bool :=
  match enable_lsr_arg p with Some b => b | None => true end.

Record Cluster := mkCluster {
  cl_validators : list Instance;
  cl_fullnodes : list Instance;
  cl_lsrs : list Instance;
  cl_vaults : list Instance
}.

(** Constants of the file and of [libra_global_constants]. *)
Definition VAULT_TOKEN : string := "root".
Definition VAULT_PORT : string := "8200".
Definition LIBRA_ROOT_NAME : string := "libra".
Definition VAULT_BACKEND : string := "vault".
Definition GENESIS_PATH : string := "/tmp/genesis.blob".
Definition OWNER_KEY : string := "owner".
Definition OPERATOR_KEY : string := "operator".
Definition CONSENSUS_KEY : string := "consensus".
Definition EXECUTION_KEY : string := "execution".
Definition VALIDATOR_NETWORK_KEY : string := "validator_network".
Definition FULLNODE_NETWORK_KEY : string := "fullnode_network".
Definition LIBRA_ROOT_KEY : string := "libra_root".

(** ** Instance count (setup_cluster, lines 113-121)

    u32 arithmetic, written with its wrap-around (a release build; a debug
    build panics at the same inputs instead). *)
Definition u32 (z : Z) : Z := z mod 2 ^ 32.

Definition instance_count (params : ClusterBuilderParams) : Z :=
  let c := u32 (num_validators params
                + u32 (fullnodes_per_validator params * num_validators params)) in
  if enable_lsr params then
    if String.eqb (lsr_backend params) "vault"
    then u32 (c + u32 (num_validators params * 2))
    else u32 (c + num_validators params)
  else c.

(** The count of C1, in the words of the spec, over unbounded integers. *)
Definition claimed_instance_count (params : ClusterBuilderParams) : Z :=
  let nv := num_validators params in
  nv + nv * fullnodes_per_validator params +
  (if enable_lsr params then
     if String.eqb (lsr_backend params) "vault" then 2 * nv else nv
   else 0).

(** ** Remote operations and the trace *)

Inductive genesis_call :=
| SetLayout (path namespace : string)
| LibraRootKey (backend server token remote_ns local_ns : string)
| OwnerKey (backend server token remote_ns local_ns : string)
| OperatorKey (backend server token remote_ns local_ns : string)
| ValidatorConfigCall (owner : string) (validator_address fullnode_address : NetworkAddress)
    (chain_id : Z) (backend server token remote_ns local_ns : string)
| SetOperator (operator owner : string)
| Genesis (chain_id : Z) (path : string)
| CreateAndInsertWaypoint (chain_id : Z) (backend server token ns : string)
| ExtractPrivateKey (key output backend server token : string).

Inductive op :=
| Cleanup
| GetWorkspace
| SetAsgSize (desired min_healthy : Z) (asg : string) (wait_up wait_down : bool)
| AllocateNode (pod_name : string)
| CleanData (node_name : string)
| SpawnNewInstance (cfg : InstanceConfig)
| CreateKey (url key : string)
| RetrySleep (ms : Z)
| WriteFile (path contents : string)
| ReadFile (path : string)
| ParseAddr (text : string)
| GenesisHelper (c : genesis_call)
| PutFile (node_name container dest contents : string).

Inductive reply :=
| RErr (msg : string)
| RUnit
| RText (s : string)
| RNode (n : KubeNode)
| RInst (i : Instance).

Record event := Ev { ev_op : op; ev_reply : reply }.

Definition failed (e : event) : bool :=
  match ev_reply e with RErr _ => true | _ => false end.

Record world := mkWorld {
  trace : list event;
  files : list (string * string)
}.

Definition file_lookup (fs : list (string * string)) (p : string) : option string :=
  match find (fun '(q, _) => String.eqb q p) fs with
  | Some (_, c) => Some c
  | None => None
  end.

(** ** The state and error monad *)

Inductive result (A : Type) :=
| Ok (a : A)
| Err (e : string)
| Panic (msg : string).
Arguments Ok {A} a.
Arguments Err {A} e.
Arguments Panic {A} msg.

Definition M (A : Type) := world -> result A * world.

Definition ret {A} (a : A) : M A := fun w => (Ok a, w).

Definition bind {A B} (m : M A) (k : A -> M B) : M B := fun w =>
  match m w with
  | (Ok a, w1) => k a w1
  | (Err e, w1) => (Err e, w1)
  | (Panic p, w1) => (Panic p, w1)
  end.

Notation "x <- m ;; k" := (bind m (fun x => k))
  (at level 61, m at next level, right associativity).
Notation "m ;;; k" := (bind m (fun _ => k))
  (at level 61, right associativity).

Definition fail {A} (e : string) : M A := fun w => (Err e, w).
Definition panic {A} (msg : string) : M A := fun w => (Panic msg, w).

(** [.map_err(f)] *)
Definition map_err {A} (f : string -> string) (m : M A) : M A := fun w =>
  match m w with
  | (Err e, w1) => (Err (f e), w1)
  | r => r
  end.

(** [.expect(msg)] *)
Definition expect {A} (msg : string) (m : M A) : M A := fun w =>
  match m w with
  | (Err e, w1) => (Panic (cat [msg; ": "; e]), w1)
  | r => r
  end.

(** [v[i]] on a slice: out of range panics. *)
Definition index {A} (l : list A) (i : nat) : M A :=
  match nth_error l i with
  | Some x => ret x
  | None => panic "index out of bounds"
  end.

Fixpoint try_join_all {A} (ms : list (M A)) : M (list A) :=
  match ms with
  | [] => ret []
  | m :: ms' => x <- m ;; xs <- try_join_all ms' ;; ret (x :: xs)
  end.

(** [for x in l { f(x)?; }] *)
Fixpoint for_each {A} (f : A -> M unit) (l : list A) : M unit :=
  match l with
  | [] => ret tt
  | x :: l' => f x ;;; for_each f l'
  end.

(** [.iter().enumerate()] *)
Definition enumerate {A} (l : list A) : list (nat * A) :=
  combine (seq 0 (length l)) l.

Definition log (o : op) (r : reply) : M unit := fun w =>
  (Ok tt, mkWorld (trace w ++ [Ev o r]) (files w)).

Definition write_fs (path contents : string) : M unit := fun w =>
  (Ok tt, mkWorld (trace w) ((path, contents) :: files w)).

(** ** Retry policy

    [libra_retrier] (common/retrier/src/lib.rs, not in this source file):
<<
    pub fn fixed_retry_strategy(delay_ms: u64, tries: usize) -> impl Iterator<Item = Duration> {
        FixedDelay::new(delay_ms).take(tries)
    }
    pub async fn retry_async<..>(iterable: I, mut operation: O) -> Result<T, E> {
        let mut iterator = iterable.into_iter();
        loop {
            match operation().await {
                Ok(value) => return Ok(value),
                Err(err) => {
                    if let Some(delay) = iterator.next() {
                        tokio::time::delay_for(delay).await;
                    } else {
                        return Err(err);
                    }
                }
            }
        }
    }
>>
    The strategy is the sequence of delays; each failed attempt consumes
    one delay and waits for it before the next attempt, and the error of the
    attempt that finds the sequence exhausted is returned.  A panic is not
    retried. *)
Definition fixed_retry_strategy (delay_ms : Z) (tries : nat) : list Z := repeat delay_ms tries.

Definition sleep (ms : Z) : M unit := log (RetrySleep ms) RUnit.

Fixpoint retry_async {A} (delays : list Z) (operation : M A) : M A := fun w =>
  match operation w with
  | (Ok v, w1) => (Ok v, w1)
  | (Err e, w1) =>
      match delays with
      | delay :: rest => (sleep delay ;;; retry_async rest operation) w1
      | [] => (Err e, w1)
      end
  | (Panic p, w1) => (Panic p, w1)
  end.

Definition vault_url (addr : string) : string := cat ["http://"; addr; ":"; VAULT_PORT].

(** ** Concrete inputs

    Pod names, an address parser, a layout printer and replies of the remote
    side, to run the bootstrap on. *)
Module Demo.

Definition digit (n : nat) : string :=
  match n with 0 => "0" | 1 => "1" | 2 => "2" | 3 => "3" | _ => "n" end.

Definition vpn (i : nat) : string := cat ["val-"; digit i].
Definition fpn (v f : nat) : string := cat ["fn-"; digit v; "-"; digit f].
Definition lpn (i : nat) : string := cat ["lsr-"; digit i].
Definition kpn (i : nat) : string := cat ["vault-"; digit i].

(** Every address parses, or none does. *)
Definition parse_ok (s : string) : option NetworkAddress := Some s.
Definition parse_bad (s : string) : option NetworkAddress := None.

Definition toml (l : Layout) : string := String.concat "," (owners l).

(** Every call succeeds; a node allocated for pod [p] has address
    [10.0.p]. *)
Definition answer_ok (h : list event) (o : op) : reply :=
  match o with
  | GetWorkspace => RText "ws"
  | AllocateNode p => RNode (mkKubeNode p p (cat ["10.0."; p]))
  | SpawnNewInstance _ => RInst (mkInstance "peer" "ip")
  | _ => RUnit
  end.


Definition gen_out (h : list event) : string := "genesis-bytes".

(** The startup cleanup is refused; everything else as [answer_ok]. *)
Definition answer_cleanup_fail (h : list event) (o : op) : reply :=
  match o with
  | Cleanup => RErr "cleanup denied"
  | _ => answer_ok h o
  end.

(** The workspace cannot be read; everything else as [answer_ok]. *)
Definition answer_ws_fail (h : list event) (o : op) : reply :=
  match o with
  | GetWorkspace => RErr "no workspace"
  | _ => answer_ok h o
  end.

Definition node0 : KubeNode := mkKubeNode "val-0" "val-0" "10.0.val-0".


Definition params (nv : Z) (lsr : option bool) (backend : string) : ClusterBuilderParams :=
  mkParams 1 ["a=1"] nv lsr backend.

End Demo.

Section Bootstrap.

(** Pod names of [crate::instance] (external to this file). *)
Variable validator_pod_name : nat -> string.
Variable fullnode_pod_name : nat -> nat -> string.
Variable lsr_pod_name : nat -> string.
Variable vault_pod_name : nat -> string.
(** [NetworkAddress::from_str]. *)
Variable parse_addr : string -> option NetworkAddress.
(** [toml::to_string(&layout)]. *)
Variable layout_toml : Layout -> string.
(** The replies of the remote side, given the calls made so far. *)
Variable answer : list event -> op -> reply.
(** The bytes the genesis tool writes at the path it is given. *)
Variable genesis_output : list event -> string.

Definition call (o : op) : M reply := fun w =>
  let r := answer (trace w) o in
  (Ok r, mkWorld (trace w ++ [Ev o r]) (files w)).

Definition unit_reply (r : reply) : M unit :=
  match r with RErr e => fail e | _ => ret tt end.

Definition call_unit (o : op) : M unit := r <- call o ;; unit_reply r.

Definition cleanup : M unit := call_unit Cleanup.

Definition get_workspace : M string :=
  r <- call GetWorkspace ;;
  match r with RText s => ret s | RErr e => fail e | _ => fail "unexpected reply" end.

(** [aws::set_asg_size]; the minimum healthy fraction is an integer here
    (the source passes 0.0 and 5.0). *)
Definition set_asg_size (desired min_healthy : Z) (asg : string) (wait_up wait_down : bool)
  : M unit := call_unit (SetAsgSize desired min_healthy asg wait_up wait_down).

Definition allocate_node (pod_name : string) : M KubeNode :=
  r <- call (AllocateNode pod_name) ;;
  match r with RNode n => ret n | RErr e => fail e | _ => fail "unexpected reply" end.

Definition clean_data (node_name : string) : M unit := call_unit (CleanData node_name).

Definition spawn_new_instance (c : InstanceConfig) : M Instance :=
  r <- call (SpawnNewInstance c) ;;
  match r with RInst i => ret i | RErr e => fail e | _ => fail "unexpected reply" end.

(** [VaultStorage::create_key] against the store at [url]. *)
Definition create_key (url key : string) : M unit := call_unit (CreateKey url key).

(** [write!(File::create(path)?, "{}", contents)] *)
Definition write_file (path contents : string) : M unit :=
  call_unit (WriteFile path contents) ;;; write_fs path contents.

(** [fs::read(path)] *)
Definition read_file (path : string) : M string := fun w =>
  match file_lookup (files w) path with
  | Some c => log (ReadFile path) (RText c) ;;; ret c
  | None => log (ReadFile path) (RErr "not found") ;;; fail "not found"
  end w.

(** [NetworkAddress::from_str(s).expect("Failed to parse network address")] *)
Definition parse_network_address (s : string) : M NetworkAddress :=
  match parse_addr s with
  | Some a => log (ParseAddr s) RUnit ;;; ret a
  | None => log (ParseAddr s) (RErr "invalid network address") ;;;
            panic "Failed to parse network address"
  end.

Definition genesis_helper (c : genesis_call) : M unit := call_unit (GenesisHelper c).

(** [GenesisHelper::genesis]: on success the tool has written the genesis
    blob at [path]. *)
Definition genesis (chain_id : Z) (path : string) : M unit :=
  genesis_helper (Genesis chain_id path) ;;;
  (fun w => write_fs path (genesis_output (trace w)) w).

Definition put_file (node_name container dest : string) (contents : string) : M unit :=
  call_unit (PutFile node_name container dest contents).

(** ** initialize_vault (lines 337-371) *)

Definition vault_keys : list string :=
  [OWNER_KEY; OPERATOR_KEY; CONSENSUS_KEY; EXECUTION_KEY;
   VALIDATOR_NETWORK_KEY; FULLNODE_NETWORK_KEY].

(** The closure run by [tokio::task::spawn_blocking] (lines 340-367); its
    error is passed on unchanged by [.await??].  The [JoinError] of the
    first [?] (the blocking task panicking or being cancelled) is not
    modelled. *)
Definition initialize_vault (validator_index : nat) (vault_node : KubeNode) : M unit :=
  let addr := internal_ip vault_node in
  let url := vault_url addr in
  (if Nat.eqb validator_index 0 then
     let libra_root_key := cat [LIBRA_ROOT_NAME; "__"; LIBRA_ROOT_KEY] in
     map_err (fun e => cat ["Failed to create "; libra_root_key; " : "; e])
       (create_key url libra_root_key)
   else ret tt) ;;;
  let pod_name := validator_pod_name validator_index in
  for_each (fun key =>
      let key := cat [pod_name; "__"; key] in
      map_err (fun e => cat ["Failed to create "; key; " : "; e]) (create_key url key))
    vault_keys.


(** ** generate_genesis (lines 373-525) *)

(** One iteration of the first loop over [vault_nodes] (lines 424-470). *)
Definition register_validator (validator_nodes fullnode_nodes : list KubeNode)
    (token_path : string) (x : nat * KubeNode) : M unit :=
  let '(i, node) := x in
  let pod_name := validator_pod_name i in
  map_err (fun e => cat ["Failed to owner_key for "; pod_name; " : "; e])
    (genesis_helper (OwnerKey VAULT_BACKEND (vault_url (internal_ip node)) token_path
                              pod_name pod_name)) ;;;
  map_err (fun e => cat ["Failed to operator_key for "; pod_name; " : "; e])
    (genesis_helper (OperatorKey VAULT_BACKEND (vault_url (internal_ip node)) token_path
                                 pod_name pod_name)) ;;;
  vnode <- index validator_nodes i ;;
  validator_address <- parse_network_address (cat ["/ip4/"; internal_ip vnode; "/tcp/6180"]) ;;
  fnode <- index fullnode_nodes i ;;
  fullnode_address <- parse_network_address (cat ["/ip4/"; internal_ip fnode; "/tcp/6180"]) ;;
  map_err (fun e => cat ["Failed to validator_config for "; pod_name; " : "; e])
    (genesis_helper (ValidatorConfigCall pod_name validator_address fullnode_address 1
                       VAULT_BACKEND (vault_url (internal_ip node)) token_path
                       pod_name pod_name)) ;;;
  map_err (fun e => cat ["Failed to set_operator for "; pod_name; " : "; e])
    (genesis_helper (SetOperator pod_name pod_name)).

(** One iteration of the second loop over [vault_nodes] (lines 474-492). *)
Definition insert_waypoint (token_path : string) (x : nat * KubeNode) : M unit :=
  let '(i, node) := x in
  let pod_name := validator_pod_name i in
  map_err (fun e => cat ["Failed to create_and_insert_waypoint for "; pod_name; " : "; e])
    (genesis_helper (CreateAndInsertWaypoint 1 VAULT_BACKEND (vault_url (internal_ip node))
                                             token_path pod_name)).

(** One future of the final [try_join_all] (lines 508-519). *)
Definition copy_genesis (x : nat * KubeNode) : M unit :=
  let '(i, node) := x in
  genesis <- map_err (fun e => cat ["Failed to read "; GENESIS_PATH; " : "; e])
               (read_file GENESIS_PATH) ;;
  put_file (name node) (validator_pod_name i) "/opt/libra/etc/genesis2.blob" genesis.

Definition generate_genesis (num_validators : Z)
    (vault_nodes validator_nodes fullnode_nodes : list KubeNode) : M unit :=
  let owners := map validator_pod_name (seq 0 (Z.to_nat num_validators)) in
  let layout := {| owners := owners; operators := owners;
                   libra_root := [LIBRA_ROOT_NAME] |} in
  let layout_path := "/tmp/layout.yaml" in
  map_err (fun e => cat ["Failed to write "; layout_path; " : "; e])
    (write_file layout_path (layout_toml layout)) ;;;
  let token_path := "/tmp/token" in
  map_err (fun e => cat ["Failed to write "; token_path; " : "; e])
    (write_file token_path VAULT_TOKEN) ;;;
  map_err (fun e => cat ["Failed to set_layout : "; e])
    (genesis_helper (SetLayout layout_path "common")) ;;;
  v0 <- index vault_nodes 0 ;;
  map_err (fun e => cat ["Failed to libra_root_key : "; e])
    (genesis_helper (LibraRootKey VAULT_BACKEND (vault_url (internal_ip v0)) token_path
                                  LIBRA_ROOT_NAME LIBRA_ROOT_NAME)) ;;;
  for_each (register_validator validator_nodes fullnode_nodes token_path)
    (enumerate vault_nodes) ;;;
  genesis 1 GENESIS_PATH ;;;
  for_each (insert_waypoint token_path) (enumerate vault_nodes) ;;;
  v0' <- index vault_nodes 0 ;;
  map_err (fun e => cat ["Failed to extract_private_key : "; e])
    (genesis_helper (ExtractPrivateKey (cat [LIBRA_ROOT_NAME; "__"; LIBRA_ROOT_KEY])
                       "/tmp/mint.key" VAULT_BACKEND (vault_url (internal_ip v0'))
                       token_path)) ;;;
  map_err (fun e => cat ["Failed to copy genesis.blob to validator nodes : "; e])
    (try_join_all (map copy_genesis (enumerate validator_nodes))) ;;;
  ret tt.

(** ** spawn_validator_and_fullnode_set (lines 156-335) *)

(** Vault spawn future (lines 181-192). *)
Definition spawn_vault (clean : bool) (x : nat * KubeNode) : M Instance :=
  let '(i, node) := x in
  (if clean then clean_data (name node) else ret tt) ;;;
  spawn_new_instance {| validator_group := new_for_index (Z.of_nat i);
                        application_config := Vault |}.

(** LSR spawn future (lines 206-221). *)
Definition spawn_lsr (num_validators : Z) (image_tag lsr_backend : string) (clean : bool)
    (x : nat * KubeNode) : M Instance :=
  let '(i, node) := x in
  let lsr_config := {| lsr_num_validators := num_validators; lsr_image_tag := image_tag;
                       lsr_lsr_backend := lsr_backend |} in
  (if clean then clean_data (name node) else ret tt) ;;;
  spawn_new_instance {| validator_group := new_for_index (Z.of_nat i);
                        application_config := LSR lsr_config |}.

(** Validator spawn future (lines 265-296). *)
Definition spawn_validator (num_validators num_fullnodes_per_validator : Z) (enable_lsr : bool)
    (image_tag : string) (config_overrides : list string) (clean : bool)
    (validator_nodes lsrs_nodes : list KubeNode) (i : nat) : M Instance :=
  v0 <- index validator_nodes 0 ;;
  let seed_peer_ip := internal_ip v0 in
  safety_rules_addr <- (if enable_lsr
                        then l <- index lsrs_nodes i ;; ret (Some (internal_ip l))
                        else ret None) ;;
  let validator_config := {| vc_num_validators := num_validators;
                             vc_num_fullnodes := num_fullnodes_per_validator;
                             vc_enable_lsr := enable_lsr;
                             vc_image_tag := image_tag;
                             vc_config_overrides := config_overrides;
                             vc_seed_peer_ip := seed_peer_ip;
                             vc_safety_rules_addr := safety_rules_addr |} in
  (if clean then vn <- index validator_nodes i ;; clean_data (name vn) else ret tt) ;;;
  spawn_new_instance {| validator_group := new_for_index (Z.of_nat i);
                        application_config := Validator validator_config |}.

(** Fullnode spawn future (lines 298-330); the flat index of line 316 is
    computed without wrap-around. *)
Definition spawn_fullnode (num_validators num_fullnodes_per_validator : Z)
    (image_tag : string) (config_overrides : list string) (clean : bool)
    (validator_nodes fullnode_nodes : list KubeNode) (validator_index fullnode_index : nat)
  : M Instance :=
  vn <- index validator_nodes validator_index ;;
  let seed_peer_ip := internal_ip vn in
  let fullnode_config := {| fc_fullnode_index := Z.of_nat fullnode_index;
                            fc_num_fullnodes_per_validator := num_fullnodes_per_validator;
                            fc_num_validators := num_validators;
                            fc_image_tag := image_tag;
                            fc_config_overrides := config_overrides;
                            fc_seed_peer_ip := seed_peer_ip |} in
  (if clean
   then fnode <- index fullnode_nodes
                   (validator_index * Z.to_nat num_fullnodes_per_validator + fullnode_index) ;;
        clean_data (name fnode)
   else ret tt) ;;;
  spawn_new_instance {| validator_group := new_for_index (Z.of_nat validator_index);
                        application_config := Fullnode fullnode_config |}.

(** The vault and LSR spawn futures are built from the allocated nodes
    (lines 178-194 and 203-223) and first polled at lines 228-229; where the
    source leaves them empty, the node lists are empty too. *)
Definition spawn_validator_and_fullnode_set (num_validators num_fullnodes_per_validator : Z)
    (enable_lsr : bool) (lsr_backend image_tag : string) (config_overrides : list string)
    (clean : bool) : M (list Instance * list Instance * list Instance * list Instance) :=
  let nv := Z.to_nat num_validators in
  let nf := Z.to_nat num_fullnodes_per_validator in
  tiers <- (if enable_lsr then
              vault_nodes <- (if String.eqb lsr_backend "vault" then
                                try_join_all
                                  (map (fun i => allocate_node (vault_pod_name i)) (seq 0 nv))
                              else ret []) ;;
              lsrs_nodes <- try_join_all
                              (map (fun i => allocate_node (lsr_pod_name i)) (seq 0 nv)) ;;
              ret (vault_nodes, lsrs_nodes)
            else ret ([], [])) ;;
  let '(vault_nodes, lsrs_nodes) := tiers in
  let vaults := map (spawn_vault clean) (enumerate vault_nodes) in
  let lsrs := map (spawn_lsr num_validators image_tag lsr_backend clean)
                  (enumerate lsrs_nodes) in
  lsrs <- try_join_all lsrs ;;
  vaults <- try_join_all vaults ;;
  validator_nodes <- try_join_all
                       (map (fun i => allocate_node (validator_pod_name i)) (seq 0 nv)) ;;
  fullnode_nodes <- try_join_all
                      (flat_map (fun v => map (fun f => allocate_node (fullnode_pod_name v f))
                                              (seq 0 nf))
                                (seq 0 nv)) ;;
  (match vault_nodes with
   | [] => ret tt
   | _ :: _ =>
       try_join_all
         (map (fun '(i, node) =>
                 retry_async (fixed_retry_strategy 5000 15) (initialize_vault i node))
              (enumerate vault_nodes)) ;;;
       generate_genesis num_validators vault_nodes validator_nodes fullnode_nodes
   end) ;;;
  validators <- try_join_all
                  (map (spawn_validator num_validators num_fullnodes_per_validator enable_lsr
                                        image_tag config_overrides clean
                                        validator_nodes lsrs_nodes)
                       (seq 0 nv)) ;;
  fullnodes <- try_join_all
                 (flat_map (fun v => map (spawn_fullnode num_validators
                                            num_fullnodes_per_validator image_tag
                                            config_overrides clean validator_nodes
                                            fullnode_nodes v)
                                         (seq 0 nf))
                           (seq 0 nv)) ;;
  ret (validators, lsrs, vaults, fullnodes).

(** ** setup_cluster (lines 92-153) *)

Definition setup_cluster (current_tag : string) (params : ClusterBuilderParams) (clean : bool)
  : M Cluster :=
  map_err (fun e => cat ["cleanup on startup failed: "; e]) cleanup ;;;
  ws <- expect "Failed to get workspace" get_workspace ;;
  let asg_name := cat [ws; "-k8s-testnet-validators"] in
  let instance_count := instance_count params in
  (if clean then
     map_err (fun e => cat [asg_name; " scale down failed: "; e])
       (set_asg_size 0 0 asg_name true true) ;;;
     map_err (fun e => cat [asg_name; " scale up failed: "; e])
       (set_asg_size instance_count 5 asg_name true false)
   else ret tt) ;;;
  sets <- map_err (fun e => cat ["Failed to spawn_validator_and_fullnode_set: "; e])
            (spawn_validator_and_fullnode_set (num_validators params)
               (fullnodes_per_validator params) (enable_lsr params) (lsr_backend params)
               current_tag (cfg_overrides params) clean) ;;
  let '(validators, lsrs, vaults, fullnodes) := sets in
  ret (mkCluster validators fullnodes lsrs vaults).


(** ** Trace predicates

    [Seg Q m]: every run of [m] extends the trace by a segment satisfying
    [Q], where [Q] holds of the empty segment and is closed under
    concatenation. *)
Record segprop := mkSegprop {
  sp :> list event -> Prop;
  sp_nil : sp [];
  sp_app : forall t1 t2, sp t1 -> sp t2 -> sp (t1 ++ t2)
}.

Definition Seg {A} (Q : segprop) (m : M A) : Prop :=
  forall w, exists t, trace (snd (m w)) = trace w ++ t /\ Q t.

Definition forall_sp (P : event -> Prop) : segprop :=
  {| sp := Forall P;
     sp_nil := Forall_nil P;
     sp_app := fun t1 t2 H1 H2 => proj2 (Forall_app P t1 t2) (conj H1 H2) |}.

Definition is_create_key (o : op) : bool :=
  match o with CreateKey _ _ => true | _ => false end.



(** A failed call other than a key creation ends the trace, and the run
    does not succeed. *)
Definition not_ok {A} (r : result A) : Prop :=
  match r with Ok _ => False | _ => True end.

Definition fatal (e : event) : bool := failed e && negb (is_create_key (ev_op e)).

Definition Fatal {A} (m : M A) : Prop :=
  forall w, exists t, trace (snd (m w)) = trace w ++ t /\
    forall k e, nth_error t k = Some e -> fatal e = true ->
      S k = length t /\ not_ok (fst (m w)).




(** [Follows proj m E]: the calls [m] makes, projected by [proj], are a
    prefix of [E], and all of [E] when [m] succeeds. *)
Definition is_ok {A} (r : result A) : bool :=
  match r with Ok _ => true | _ => false end.

Definition is_prefix {X} (p l : list X) : Prop := exists s, l = p ++ s.

Definition Follows {X A} (proj : op -> list X) (m : M A) (E : list X) : Prop :=
  forall w, exists t, trace (snd (m w)) = trace w ++ t /\
    is_prefix (flat_map (fun e => proj (ev_op e)) t) E /\
    (is_ok (fst (m w)) = true -> flat_map (fun e => proj (ev_op e)) t = E).

(** The remote calls of the genesis pipeline, by kind and validator. *)
Inductive call_kind :=
| KSetLayout
| KLibraRootKey
| KOwnerKey (pod : string)
| KOperatorKey (pod : string)
| KValidatorConfig (pod : string)
| KSetOperator (pod : string)
| KGenesis
| KWaypoint (pod : string)
| KExtractPrivateKey
| KCopyGenesis (pod : string).

Definition remote_kind (o : op) : list call_kind :=
  match o with
  | GenesisHelper c =>
      match c with
      | SetLayout _ _ => [KSetLayout]
      | LibraRootKey _ _ _ _ _ => [KLibraRootKey]
      | OwnerKey _ _ _ ns _ => [KOwnerKey ns]
      | OperatorKey _ _ _ ns _ => [KOperatorKey ns]
      | ValidatorConfigCall owner _ _ _ _ _ _ _ _ => [KValidatorConfig owner]
      | SetOperator _ owner => [KSetOperator owner]
      | Genesis _ _ => [KGenesis]
      | CreateAndInsertWaypoint _ _ _ _ ns => [KWaypoint ns]
      | ExtractPrivateKey _ _ _ _ _ => [KExtractPrivateKey]
      end
  | PutFile _ container _ _ => [KCopyGenesis container]
  | _ => []
  end.

(** The order of C2, in the words of the spec: layout, root key, the four
    registrations of each validator in index order, finalization, one
    waypoint per validator, root key extraction, then one copy of the
    artifact per validator node. *)
Definition claimed_genesis_order (pods targets : list string) : list call_kind :=
  [KSetLayout; KLibraRootKey] ++
  flat_map (fun p => [KOwnerKey p; KOperatorKey p; KValidatorConfig p; KSetOperator p]) pods ++
  [KGenesis] ++ map KWaypoint pods ++ [KExtractPrivateKey] ++ map KCopyGenesis targets.

(** The key slots created, with the store they are created in. *)
Definition created_key (o : op) : list (string * string) :=
  match o with CreateKey url key => [(url, key)] | _ => [] end.

(** The key slots of C4, in the words of the spec: the shared root key
    only for index 0, then the six per-validator keys, each prefixed by
    the validator's pod name, all in the store at [url]. *)
Definition claimed_vault_slots (i : nat) (pod url : string) : list (string * string) :=
  (if Nat.eqb i 0 then [(url, "libra__libra_root")] else []) ++
  map (fun k => (url, cat [pod; "__"; k]))
      ["owner"; "operator"; "consensus"; "execution"; "validator_network";
       "fullnode_network"].

(** Spawned validators take their seed peer from validator node 0, and a
    fullnode of validator group [v] from validator node [v]. *)
Definition seeds_from (validator_nodes : list KubeNode) (e : event) : Prop :=
  match ev_op e with
  | SpawnNewInstance c =>
      match application_config c with
      | Validator vc =>
          option_map internal_ip (nth_error validator_nodes 0) = Some (vc_seed_peer_ip vc)
      | Fullnode fc =>
          option_map internal_ip
            (nth_error validator_nodes (Z.to_nat (vg_index (validator_group c))))
          = Some (fc_seed_peer_ip fc)
      | _ => True
      end
  | _ => True
  end.

(** Validators and fullnodes are spawned with the overrides [o]. *)
Definition overrides_are (o : list string) (e : event) : Prop :=
  match ev_op e with
  | SpawnNewInstance c =>
      match application_config c with
      | Validator vc => vc_config_overrides vc = o
      | Fullnode fc => fc_config_overrides fc = o
      | _ => True
      end
  | _ => True
  end.

(** A run without the secret tier: no key creation, retry wait, genesis
    tool call, file access or artifact copy; only validator and fullnode
    pods are allocated; only validators and fullnodes are spawned, the
    validators without a safety rules address. *)
Definition no_secret_tier (e : event) : Prop :=
  match ev_op e with
  | CreateKey _ _ | RetrySleep _ | GenesisHelper _ | PutFile _ _ _ _
  | WriteFile _ _ | ReadFile _ | ParseAddr _ => False
  | AllocateNode pod =>
      (exists i, pod = validator_pod_name i) \/ (exists v f, pod = fullnode_pod_name v f)
  | SpawnNewInstance c =>
      match application_config c with
      | Validator vc => vc_safety_rules_addr vc = None
      | Fullnode _ => True
      | _ => False
      end
  | _ => True
  end.

(** A network address that failed to parse. *)
Definition is_bad_parse (e : event) : bool :=
  match ev_op e, ev_reply e with ParseAddr _, RErr _ => true | _, _ => false end.

Definition is_panic {A} (r : result A) : Prop :=
  match r with Panic _ => True | _ => False end.

(** A failed address parse is the last call of [m], and [m] then panics. *)
Definition ParseFatal {A} (m : M A) : Prop :=
  forall w, exists t, trace (snd (m w)) = trace w ++ t /\
    forall k e, nth_error t k = Some e -> is_bad_parse e = true ->
      S k = length t /\ is_panic (fst (m w)).

Definition is_put (o : op) : bool :=
  match o with PutFile _ _ _ _ => true | _ => false end.

Definition no_put (e : event) : Prop := is_put (ev_op e) = false.

(** The allocation calls of [try_join_all (pods.map(allocate_node))]. *)
Definition alloc_events (pod_name : nat -> string) (k : nat) (l : list KubeNode)
  : list event :=
  map (fun x => Ev (AllocateNode (pod_name (fst x))) (RNode (snd x)))
      (combine (seq k (length l)) l).

(** The size requests sent to the autoscaling group: desired count, minimum
    healthy percentage, group name, wait for scale-up, wait for scale-down. *)
Definition asg_call (o : op) : list (Z * Z * string * bool * bool) :=
  match o with SetAsgSize d m asg u dn => [(d, m, asg, u, dn)] | _ => [] end.

(** A call that wipes the data of a node. *)
Definition not_clean_data (e : event) : Prop :=
  match ev_op e with CleanData _ => False | _ => True end.

(** Instances are spawned with the run's counts, secret tier flag, image tag
    and backend. *)
Definition config_matches (nv nf : Z) (lsr : bool) (tag backend : string) (e : event) : Prop :=
  match ev_op e with
  | SpawnNewInstance c =>
      match application_config c with
      | Validator vc =>
          vc_num_validators vc = nv /\ vc_num_fullnodes vc = nf /\
          vc_enable_lsr vc = lsr /\ vc_image_tag vc = tag
      | Fullnode fc =>
          fc_num_validators fc = nv /\ fc_num_fullnodes_per_validator fc = nf /\
          fc_image_tag fc = tag
      | LSR lc =>
          lsr_num_validators lc = nv /\ lsr_image_tag lc = tag /\ lsr_lsr_backend lc = backend
      | Vault => True
      end
  | _ => True
  end.

(** A validator of group [i] is spawned with the address of LSR node [i] as
    safety rules address when the secret tier is enabled, and none otherwise. *)
Definition safety_rules_from (lsr : bool) (lsrs_nodes : list KubeNode) (e : event) : Prop :=
  match ev_op e with
  | SpawnNewInstance c =>
      match application_config c with
      | Validator vc =>
          vc_safety_rules_addr vc =
            (if lsr
             then option_map internal_ip
                    (nth_error lsrs_nodes (Z.to_nat (vg_index (validator_group c))))
             else None)
      | _ => True
      end
  | _ => True
  end.

(** The owner and the two addresses of each validator configuration call. *)
Definition validator_config_call (o : op) : list (string * NetworkAddress * NetworkAddress) :=
  match o with
  | GenesisHelper (ValidatorConfigCall owner va fa _ _ _ _ _ _) => [(owner, va, fa)]
  | _ => []
  end.

Definition node_address (n : KubeNode) : string := cat ["/ip4/"; internal_ip n; "/tcp/6180"].

(** The registration of validator [i]: its pod name, the parsed address of
    validator node [i] and that of fullnode node [i]. *)
Definition registered_addresses (validator_nodes fullnode_nodes : list KubeNode) (i : nat)
  : list (string * NetworkAddress * NetworkAddress) :=
  match nth_error validator_nodes i, nth_error fullnode_nodes i with
  | Some vn, Some fn =>
      match parse_addr (node_address vn), parse_addr (node_address fn) with
      | Some va, Some fa => [(validator_pod_name i, va, fa)]
      | _, _ => []
      end
  | _, _ => []
  end.

(** [m] only creates keys, all in the store at [url]; it never panics; it
    fails only on a failed key creation, which it reports with the key's
    name and the store's message, everything before it having succeeded;
    when it succeeds every key creation succeeded. *)
Definition KeyErrors {A} (url : string) (m : M A) : Prop :=
  forall w, exists t, trace (snd (m w)) = trace w ++ t /\
    Forall (fun ev => exists key, ev_op ev = CreateKey url key) t /\
    (forall p, fst (m w) <> Panic p) /\
    (is_ok (fst (m w)) = true -> Forall (fun ev => failed ev = false) t) /\
    (forall e, fst (m w) = Err e ->
       exists t0 key msg, t = t0 ++ [Ev (CreateKey url key) (RErr msg)] /\
         e = cat ["Failed to create "; key; " : "; msg] /\
         Forall (fun ev => failed ev = false) t0).

(** ** Closure of [Seg] under the monad's combinators *)

Lemma Seg_ret {A} (Q : segprop) (a : A) : Seg Q (ret a).
Proof. intros w. exists []. split; [simpl; rewrite app_nil_r; reflexivity | apply sp_nil]. Qed.

Lemma Seg_fail {A} (Q : segprop) e : Seg Q (@fail A e).
Proof. intros w. exists []. split; [simpl; rewrite app_nil_r; reflexivity | apply sp_nil]. Qed.

Lemma Seg_panic {A} (Q : segprop) e : Seg Q (@panic A e).
Proof. intros w. exists []. split; [simpl; rewrite app_nil_r; reflexivity | apply sp_nil]. Qed.

Lemma Seg_bind {A B} (Q : segprop) (m : M A) (k : A -> M B) :
  Seg Q m -> (forall a, Seg Q (k a)) -> Seg Q (bind m k).
Proof.
  intros Hm Hk w. destruct (Hm w) as [t1 [E1 Q1]]. unfold bind.
  destruct (m w) as [[a|e|p] w1]; simpl in *.
  - destruct (Hk a w1) as [t2 [E2 Q2]]. exists (t1 ++ t2). split.
    + rewrite E2, E1, app_assoc. reflexivity.
    + apply sp_app; assumption.
  - exists t1; split; assumption.
  - exists t1; split; assumption.
Qed.

Lemma Seg_map_err {A} (Q : segprop) f (m : M A) : Seg Q m -> Seg Q (map_err f m).
Proof.
  intros Hm w. destruct (Hm w) as [t [E Ht]]. unfold map_err.
  destruct (m w) as [[a|e|p] w1]; simpl in *; exists t; split; assumption.
Qed.

Lemma Seg_expect {A} (Q : segprop) msg (m : M A) : Seg Q m -> Seg Q (expect msg m).
Proof.
  intros Hm w. destruct (Hm w) as [t [E Ht]]. unfold expect.
  destruct (m w) as [[a|e|p] w1]; simpl in *; exists t; split; assumption.
Qed.

Lemma Seg_index {A} (Q : segprop) (l : list A) i : Seg Q (index l i).
Proof. unfold index. destruct (nth_error l i); [apply Seg_ret | apply Seg_panic]. Qed.

Lemma Seg_log (Q : segprop) o r : Q [Ev o r] -> Seg Q (log o r).
Proof. intros H w. exists [Ev o r]. split; [reflexivity | exact H]. Qed.

Lemma Seg_write_fs (Q : segprop) p c : Seg Q (write_fs p c).
Proof. intros w. exists []. split; [simpl; rewrite app_nil_r; reflexivity | apply sp_nil]. Qed.

Lemma Seg_call (Q : segprop) o : (forall h, Q [Ev o (answer h o)]) -> Seg Q (call o).
Proof. intros H w. exists [Ev o (answer (trace w) o)]. split; [reflexivity | apply H]. Qed.

Lemma Seg_read_file (Q : segprop) p :
  (forall r, Q [Ev (ReadFile p) r]) -> Seg Q (read_file p).
Proof.
  intros H w. unfold read_file.
  destruct (file_lookup (files w) p) as [c|]; simpl; eexists; split;
    [reflexivity | apply H | reflexivity | apply H].
Qed.

Lemma Seg_call_unit (Q : segprop) o :
  (forall h, Q [Ev o (answer h o)]) -> Seg Q (call_unit o).
Proof.
  intros H. unfold call_unit. apply Seg_bind; [apply Seg_call, H |].
  intros []; unfold unit_reply; first [apply Seg_fail | apply Seg_ret].
Qed.

Lemma Seg_genesis (Q : segprop) c p :
  (forall h, Q [Ev (GenesisHelper (Genesis c p)) (answer h (GenesisHelper (Genesis c p)))]) ->
  Seg Q (genesis c p).
Proof.
  intros H. unfold genesis. apply Seg_bind; [apply Seg_call_unit, H |].
  intros _ w. exists []. split; [simpl; rewrite app_nil_r; reflexivity | apply sp_nil].
Qed.

Lemma Seg_try_join_all {A} (Q : segprop) (ms : list (M A)) :
  (forall m, In m ms -> Seg Q m) -> Seg Q (try_join_all ms).
Proof.
  induction ms as [|m ms IH]; intros H; simpl.
  - apply Seg_ret.
  - apply Seg_bind; [apply H; left; reflexivity |]. intros a.
    apply Seg_bind; [apply IH; intros; apply H; right; assumption |].
    intros; apply Seg_ret.
Qed.

Lemma Seg_for_each {A} (Q : segprop) (f : A -> M unit) l :
  (forall x, In x l -> Seg Q (f x)) -> Seg Q (for_each f l).
Proof.
  induction l as [|x l IH]; intros H; simpl.
  - apply Seg_ret.
  - apply Seg_bind; [apply H; left; reflexivity |].
    intros _; apply IH; intros; apply H; right; assumption.
Qed.

Lemma Seg_retry_async {A} (Q : segprop) d n (m : M A) :
  Q [Ev (RetrySleep d) RUnit] -> Seg Q m -> Seg Q (retry_async (fixed_retry_strategy d n) m).
Proof.
  intros Hs Hm. unfold fixed_retry_strategy. induction n as [|n IH]; intros w; simpl;
    destruct (Hm w) as [t1 [E1 Q1]]; destruct (m w) as [[a|e|p] w1]; simpl in *;
    try (exists t1; split; assumption).
  destruct (Seg_bind Q (sleep d) _ (Seg_log Q _ _ Hs) (fun _ => IH) w1) as [t2 [E2 Q2]].
  exists (t1 ++ t2). split.
  - rewrite E2, E1, app_assoc. reflexivity.
  - apply sp_app; assumption.
Qed.

Lemma Seg_bind_ret {A B} (Q : segprop) (a : A) (k : A -> M B) :
  Seg Q (k a) -> Seg Q (bind (ret a) k).
Proof. intros H w. apply (H w). Qed.

Lemma Seg_bind_index {A B} (Q : segprop) (l : list A) i (k : A -> M B) :
  (forall a, nth_error l i = Some a -> Seg Q (k a)) -> Seg Q (bind (index l i) k).
Proof.
  intros H. unfold index. destruct (nth_error l i) as [a|] eqn:E.
  - apply Seg_bind_ret, H, eq_refl.
  - intros w. exists []. split; [simpl; rewrite app_nil_r; reflexivity | apply sp_nil].
Qed.

(** Walks a program, leaving one goal per remote call it may make. *)
Ltac in_inv :=
  repeat match goal with
  | H : In _ (map _ _) |- _ =>
      let x := fresh "x" in let Hx := fresh "Hx" in
      apply in_map_iff in H; destruct H as [x [<- Hx]]
  | H : In _ (flat_map _ _) |- _ =>
      let x := fresh "x" in let Hx := fresh "Hx" in
      apply in_flat_map in H; destruct H as [x [Hx H]]
  end.

Ltac seg_step :=
  match goal with
  | |- Seg _ (bind (ret _) _) => apply Seg_bind_ret; cbv beta iota
  | |- Seg _ (bind (index _ _) _) => apply Seg_bind_index; intros ? ?
  | |- Seg _ (bind _ _) => apply Seg_bind; [ | intro ]
  | |- Seg _ (ret _) => apply Seg_ret
  | |- Seg _ (fail _) => apply Seg_fail
  | |- Seg _ (panic _) => apply Seg_panic
  | |- Seg _ (map_err _ _) => apply Seg_map_err
  | |- Seg _ (expect _ _) => apply Seg_expect
  | |- Seg _ (index _ _) => apply Seg_index
  | |- Seg _ (write_fs _ _) => apply Seg_write_fs
  | |- Seg _ (log _ _) => apply Seg_log
  | |- Seg _ (call_unit _) => apply Seg_call_unit; intro
  | |- Seg _ (call _) => apply Seg_call; intro
  | |- Seg _ (read_file _) => apply Seg_read_file; intro
  | |- Seg _ (genesis _ _) => apply Seg_genesis; intro
  | |- Seg _ (try_join_all _) => apply Seg_try_join_all; intros ? ?; in_inv
  | |- Seg _ (for_each _ _) => apply Seg_for_each; intros ? ?; in_inv
  | |- Seg _ (retry_async _ _) => apply Seg_retry_async
  | |- Seg _ (if _ then _ else _) => case_eq_if
  | |- Seg _ (match ?x with _ => _ end) => destruct x
  | |- Seg _ ?m =>
      progress (unfold cleanup, get_workspace, set_asg_size, allocate_node, clean_data,
                spawn_new_instance, create_key, write_file, parse_network_address,
                genesis_helper, put_file, unit_reply, sleep, initialize_vault,
                register_validator, insert_waypoint, copy_genesis, generate_genesis,
                spawn_vault, spawn_lsr, spawn_validator, spawn_fullnode,
                spawn_validator_and_fullnode_set, setup_cluster)
  | |- Seg _ _ => progress (cbv beta iota zeta)
  end
with case_eq_if :=
  match goal with
  | |- Seg _ (if ?b then _ else _) =>
      let E := fresh "Eb" in destruct b eqn:E
  end.

Ltac seg := repeat seg_step.

(** ** Closure of [Fatal] *)

Lemma Fatal_nil {A} (m : M A) :
  (forall w, trace (snd (m w)) = trace w) -> Fatal m.
Proof.
  intros H w. exists []. split; [rewrite H, app_nil_r; reflexivity |].
  intros i e He. destruct i; discriminate.
Qed.

Lemma Fatal_ret {A} (a : A) : Fatal (ret a).
Proof. apply Fatal_nil. reflexivity. Qed.

Lemma Fatal_fail {A} e : Fatal (@fail A e).
Proof. apply Fatal_nil. reflexivity. Qed.

Lemma Fatal_panic {A} e : Fatal (@panic A e).
Proof. apply Fatal_nil. reflexivity. Qed.

Lemma Fatal_write_fs p c : Fatal (write_fs p c).
Proof. apply Fatal_nil. reflexivity. Qed.

Lemma Fatal_index {A} (l : list A) i : Fatal (index l i).
Proof. unfold index. destruct (nth_error l i); [apply Fatal_ret | apply Fatal_panic]. Qed.

Lemma Fatal_bind {A B} (m : M A) (k : A -> M B) :
  Fatal m -> (forall a, Fatal (k a)) -> Fatal (bind m k).
Proof.
  intros Hm Hk w. destruct (Hm w) as [t1 [E1 F1]]. unfold bind.
  destruct (m w) as [[a|e|p] w1]; simpl in *.
  - destruct (Hk a w1) as [t2 [E2 F2]]. exists (t1 ++ t2). split.
    + rewrite E2, E1, app_assoc. reflexivity.
    + intros i ev He Hf. destruct (Nat.lt_ge_cases i (length t1)) as [Hlt|Hge].
      * rewrite nth_error_app1 in He by assumption. destruct (F1 i ev He Hf) as [_ []].
      * rewrite nth_error_app2 in He by assumption.
        destruct (F2 _ _ He Hf) as [Hl Hn].
        split; [rewrite length_app; lia | exact Hn].
  - exists t1. split; [assumption |].
    intros i ev He Hf. destruct (F1 i ev He Hf) as [Hl _]. split; [exact Hl | exact I].
  - exists t1. split; [assumption |].
    intros i ev He Hf. destruct (F1 i ev He Hf) as [Hl _]. split; [exact Hl | exact I].
Qed.

Lemma Fatal_map_err {A} f (m : M A) : Fatal m -> Fatal (map_err f m).
Proof.
  intros Hm w. destruct (Hm w) as [t [E F]]. unfold map_err.
  destruct (m w) as [[a|e|p] w1]; simpl in *; exists t; split; try assumption;
    intros i ev He Hf; destruct (F i ev He Hf) as [Hl Hn]; split; assumption.
Qed.

Lemma Fatal_expect {A} msg (m : M A) : Fatal m -> Fatal (expect msg m).
Proof.
  intros Hm w. destruct (Hm w) as [t [E F]]. unfold expect.
  destruct (m w) as [[a|e|p] w1]; simpl in *; exists t; split; try assumption;
    intros i ev He Hf; destruct (F i ev He Hf) as [Hl Hn]; split; assumption.
Qed.

(** A remote call whose error reply makes the caller fail at once. *)
Lemma Fatal_call_bind {A} o (k : reply -> M A) :
  (forall r, Fatal (k r)) ->
  (forall e w, trace (snd (k (RErr e) w)) = trace w /\ not_ok (fst (k (RErr e) w))) ->
  Fatal (bind (call o) k).
Proof.
  intros Hk Herr w. unfold bind, call. simpl.
  remember (answer (trace w) o) as r eqn:Ea. clear Ea.
  destruct (Hk r (mkWorld (trace w ++ [Ev o r]) (files w))) as [t2 [E2 F2]].
  destruct r as [e| |s|n|inst];
    [ destruct (Herr e (mkWorld (trace w ++ [Ev o (RErr e)]) (files w))) as [E N];
      exists [Ev o (RErr e)]; split;
      [ rewrite E; reflexivity
      | intros i ev He _; destruct i as [|[|i]]; try discriminate;
        split; [reflexivity | exact N] ]
    | eexists (_ :: t2); split;
      [ rewrite E2; simpl; rewrite <- app_assoc; reflexivity
      | intros [|i] ev He Hf;
        [ injection He as <-; discriminate
        | destruct (F2 i ev He Hf) as [Hl Hn]; split; [simpl; lia | exact Hn] ] ] .. ].
Qed.

Lemma Fatal_call_unit o : Fatal (call_unit o).
Proof.
  apply Fatal_call_bind.
  - intros []; first [apply Fatal_fail | apply Fatal_ret].
  - intros; split; [reflexivity | exact I].
Qed.

Lemma Fatal_get_workspace : Fatal get_workspace.
Proof.
  apply Fatal_call_bind.
  - intros []; first [apply Fatal_fail | apply Fatal_ret].
  - intros; split; [reflexivity | exact I].
Qed.

Lemma Fatal_allocate_node pod : Fatal (allocate_node pod).
Proof.
  apply Fatal_call_bind.
  - intros []; first [apply Fatal_fail | apply Fatal_ret].
  - intros; split; [reflexivity | exact I].
Qed.

Lemma Fatal_spawn_new_instance c : Fatal (spawn_new_instance c).
Proof.
  apply Fatal_call_bind.
  - intros []; first [apply Fatal_fail | apply Fatal_ret].
  - intros; split; [reflexivity | exact I].
Qed.

Lemma Fatal_read_file p : Fatal (read_file p).
Proof.
  intros w. unfold read_file.
  destruct (file_lookup (files w) p) as [c|]; simpl; eexists; split; try reflexivity;
    intros [|[|i]] ev He Hf; try discriminate.
  - injection He as <-. discriminate.
  - split; [reflexivity | exact I].
Qed.

Lemma Fatal_parse_network_address s : Fatal (parse_network_address s).
Proof.
  intros w. unfold parse_network_address.
  destruct (parse_addr s); simpl; eexists; split; try reflexivity;
    intros [|[|i]] ev He Hf; try discriminate.
  - injection He as <-. discriminate.
  - split; [reflexivity | exact I].
Qed.

Lemma Fatal_genesis c p : Fatal (genesis c p).
Proof.
  apply Fatal_bind; [apply Fatal_call_unit |].
  intros _. apply Fatal_nil. reflexivity.
Qed.

Lemma Fatal_try_join_all {A} (ms : list (M A)) :
  (forall m, In m ms -> Fatal m) -> Fatal (try_join_all ms).
Proof.
  induction ms as [|m ms IH]; intros H; simpl.
  - apply Fatal_ret.
  - apply Fatal_bind; [apply H; left; reflexivity |]. intros a.
    apply Fatal_bind; [apply IH; intros; apply H; right; assumption |].
    intros; apply Fatal_ret.
Qed.

Lemma Fatal_for_each {A} (f : A -> M unit) l :
  (forall x, In x l -> Fatal (f x)) -> Fatal (for_each f l).
Proof.
  induction l as [|x l IH]; intros H; simpl.
  - apply Fatal_ret.
  - apply Fatal_bind; [apply H; left; reflexivity |].
    intros _; apply IH; intros; apply H; right; assumption.
Qed.

(** Code that makes no fatal call is [Fatal]. *)
Lemma Fatal_of_Seg {A} (m : M A) :
  Seg (forall_sp (fun e => fatal e = false)) m -> Fatal m.
Proof.
  intros H w. destruct (H w) as [t [E F]]. exists t. split; [exact E |].
  intros i ev He Hf. simpl in F. rewrite Forall_forall in F.
  rewrite (F ev (nth_error_In t i He)) in Hf. discriminate.
Qed.

Ltac fatal_step :=
  match goal with
  | |- Fatal (bind (call _) _) => fail 1
  | |- Fatal (bind _ _) => apply Fatal_bind; [ | intro ]
  | |- Fatal (ret _) => apply Fatal_ret
  | |- Fatal (fail _) => apply Fatal_fail
  | |- Fatal (panic _) => apply Fatal_panic
  | |- Fatal (map_err _ _) => apply Fatal_map_err
  | |- Fatal (expect _ _) => apply Fatal_expect
  | |- Fatal (index _ _) => apply Fatal_index
  | |- Fatal (write_fs _ _) => apply Fatal_write_fs
  | |- Fatal (call_unit _) => apply Fatal_call_unit
  | |- Fatal get_workspace => apply Fatal_get_workspace
  | |- Fatal (allocate_node _) => apply Fatal_allocate_node
  | |- Fatal (spawn_new_instance _) => apply Fatal_spawn_new_instance
  | |- Fatal (read_file _) => apply Fatal_read_file
  | |- Fatal (parse_network_address _) => apply Fatal_parse_network_address
  | |- Fatal (genesis _ _) => apply Fatal_genesis
  | |- Fatal (try_join_all _) => apply Fatal_try_join_all; intros ? ?; in_inv
  | |- Fatal (for_each _ _) => apply Fatal_for_each; intros ? ?; in_inv
  | |- Fatal (retry_async _ _) =>
      apply Fatal_of_Seg; seg; simpl; repeat constructor;
      unfold fatal; simpl; rewrite andb_false_r; reflexivity
  | |- Fatal (if ?b then _ else _) => let E := fresh "Eb" in destruct b eqn:E
  | |- Fatal (match ?x with _ => _ end) => destruct x
  | |- Fatal _ =>
      progress (unfold cleanup, set_asg_size, clean_data, create_key, write_file,
                genesis_helper, put_file, register_validator, insert_waypoint, copy_genesis,
                generate_genesis, spawn_vault, spawn_lsr, spawn_validator, spawn_fullnode,
                spawn_validator_and_fullnode_set, setup_cluster)
  | |- Fatal _ => progress (cbv beta iota zeta)
  end.

Ltac fatal := repeat fatal_step.

(** Every failed call other than a key creation is the last call of the
    bootstrap run, and the run then fails. *)
Lemma setup_cluster_fatal tag params clean : Fatal (setup_cluster tag params clean).
Proof. fatal.
Qed.

(** ** Retries of initialize_vault *)















(** ** Closure of [Follows] *)

Section FollowsProj.
Context {X : Type} (proj : op -> list X).

Lemma Follows_eq {A} (m : M A) E E' : Follows proj m E -> E = E' -> Follows proj m E'.
Proof. intros H ->. exact H. Qed.

Lemma Follows_nil_trace {A} (m : M A) E :
  (forall w, trace (snd (m w)) = trace w /\ (is_ok (fst (m w)) = true -> E = [])) ->
  Follows proj m E.
Proof.
  intros H w. destruct (H w) as [Et Ok]. exists []. rewrite Et, app_nil_r.
  split; [reflexivity |]. split; [exists E; reflexivity |].
  intros Hok. simpl. symmetry. apply Ok, Hok.
Qed.

Lemma Follows_ret {A} (a : A) : Follows proj (ret a) [].
Proof. apply Follows_nil_trace. intros w. split; reflexivity. Qed.

Lemma Follows_fail {A} e E : Follows proj (@fail A e) E.
Proof. apply Follows_nil_trace. intros w. split; [reflexivity | discriminate]. Qed.

Lemma Follows_panic {A} e E : Follows proj (@panic A e) E.
Proof. apply Follows_nil_trace. intros w. split; [reflexivity | discriminate]. Qed.

Lemma Follows_index {A} (l : list A) i : Follows proj (index l i) [].
Proof.
  unfold index. destruct (nth_error l i); [apply Follows_ret | apply Follows_panic].
Qed.

Lemma Follows_write_fs p c : Follows proj (write_fs p c) [].
Proof. apply Follows_nil_trace. intros w. split; reflexivity. Qed.

Lemma Follows_bind {A B} (m : M A) (k : A -> M B) E1 E2 :
  Follows proj m E1 -> (forall a, Follows proj (k a) E2) ->
  Follows proj (bind m k) (E1 ++ E2).
Proof.
  intros Hm Hk w. destruct (Hm w) as [t1 [Et1 [[s1 P1] O1]]]. unfold bind.
  destruct (m w) as [[a|e|p] w1]; simpl in *.
  - specialize (O1 eq_refl).
    destruct (Hk a w1) as [t2 [Et2 [[s2 P2] O2]]]. exists (t1 ++ t2).
    rewrite Et2, Et1, <- app_assoc, flat_map_app, O1.
    split; [reflexivity |]. split.
    + exists s2. rewrite P2, app_assoc. reflexivity.
    + intros H. rewrite (O2 H). reflexivity.
  - exists t1. split; [exact Et1 |]. split; [| discriminate].
    exists (s1 ++ E2). rewrite P1, app_assoc. reflexivity.
  - exists t1. split; [exact Et1 |]. split; [| discriminate].
    exists (s1 ++ E2). rewrite P1, app_assoc. reflexivity.
Qed.

Lemma Follows_map_err {A} f (m : M A) E : Follows proj m E -> Follows proj (map_err f m) E.
Proof.
  intros Hm w. destruct (Hm w) as [t [Et [P O]]]. unfold map_err.
  destruct (m w) as [[a|e|p] w1]; simpl in *; exists t; repeat split; auto;
    discriminate.
Qed.

Lemma Follows_log o r : Follows proj (log o r) (proj o).
Proof.
  intros w. exists [Ev o r]. simpl. rewrite app_nil_r.
  split; [reflexivity |]. split; [exists []; rewrite app_nil_r; reflexivity | reflexivity].
Qed.

Lemma Follows_call_unit o : Follows proj (call_unit o) (proj o).
Proof.
  intros w. exists [Ev o (answer (trace w) o)]. unfold call_unit, bind, call, unit_reply.
  simpl. rewrite app_nil_r. split.
  - destruct (answer (trace w) o); reflexivity.
  - split; [exists []; rewrite app_nil_r; reflexivity | reflexivity].
Qed.

Lemma Follows_read_file p : Follows proj (read_file p) (proj (ReadFile p)).
Proof.
  intros w. unfold read_file.
  destruct (file_lookup (files w) p); simpl; eexists; (split; [reflexivity |]);
    simpl; rewrite app_nil_r;
    (split; [exists []; rewrite app_nil_r; reflexivity | reflexivity]).
Qed.

Lemma Follows_parse_network_address s : Follows proj (parse_network_address s) (proj (ParseAddr s)).
Proof.
  intros w. unfold parse_network_address.
  destruct (parse_addr s); simpl; eexists; (split; [reflexivity |]);
    simpl; rewrite app_nil_r;
    (split; [exists []; rewrite app_nil_r; reflexivity | reflexivity]).
Qed.

Lemma Follows_genesis c p : Follows proj (genesis c p) (proj (GenesisHelper (Genesis c p))).
Proof.
  eapply Follows_eq; [apply Follows_bind | apply app_nil_r].
  - apply Follows_call_unit.
  - intros _. apply Follows_nil_trace. intros w. split; reflexivity.
Qed.

Lemma Follows_for_each {Y} (f : Y -> M unit) (Ef : Y -> list X) l :
  (forall x, In x l -> Follows proj (f x) (Ef x)) ->
  Follows proj (for_each f l) (flat_map Ef l).
Proof.
  induction l as [|x l IH]; intros H; simpl.
  - apply Follows_ret.
  - apply Follows_bind; [apply H; left; reflexivity |].
    intros _. apply IH. intros; apply H; right; assumption.
Qed.

Lemma Follows_try_join_all {Y A} (f : Y -> M A) (Ef : Y -> list X) l :
  (forall x, In x l -> Follows proj (f x) (Ef x)) ->
  Follows proj (try_join_all (map f l)) (flat_map Ef l).
Proof.
  induction l as [|x l IH]; intros H; simpl.
  - apply Follows_ret.
  - rewrite <- (app_nil_r (flat_map Ef l)).
    apply Follows_bind; [apply H; left; reflexivity |]. intros ?.
    apply Follows_bind; [apply IH; intros; apply H; right; assumption |].
    intros. apply Follows_ret.
Qed.

End FollowsProj.

Lemma flat_map_enumerate_fst {Y Z} (g : nat -> list Z) (l : list Y) k :
  flat_map (fun x : nat * Y => g (fst x)) (combine (seq k (length l)) l) =
  flat_map g (seq k (length l)).
Proof.
  revert k. induction l as [|y l IH]; intros k; simpl; [reflexivity |].
  rewrite IH. reflexivity.
Qed.

Lemma flat_map_singleton {Y Z} (f : Y -> Z) l : flat_map (fun x => [f x]) l = map f l.
Proof. induction l as [|x l IH]; simpl; [reflexivity | rewrite IH; reflexivity]. Qed.

Lemma flat_map_map_fun {Y Y' Z} (f : Y' -> list Z) (g : Y -> Y') l :
  flat_map f (map g l) = flat_map (fun x => f (g x)) l.
Proof. induction l as [|x l IH]; simpl; [reflexivity | rewrite IH; reflexivity]. Qed.

Ltac follows_step :=
  match goal with
  | |- Follows _ (bind _ _) _ => eapply Follows_bind; [ | intro ]
  | |- Follows _ (ret _) _ => apply Follows_ret
  | |- Follows _ (fail _) _ => apply Follows_fail
  | |- Follows _ (panic _) _ => apply Follows_panic
  | |- Follows _ (map_err _ _) _ => apply Follows_map_err
  | |- Follows _ (index _ _) _ => apply Follows_index
  | |- Follows _ (write_fs _ _) _ => apply Follows_write_fs
  | |- Follows _ (call_unit _) _ =>
      eapply Follows_eq; [apply Follows_call_unit | simpl; reflexivity]
  | |- Follows _ (read_file _) _ =>
      eapply Follows_eq; [apply Follows_read_file | simpl; reflexivity]
  | |- Follows _ (parse_network_address _) _ =>
      eapply Follows_eq; [apply Follows_parse_network_address | simpl; reflexivity]
  | |- Follows _ (genesis _ _) _ =>
      eapply Follows_eq; [apply Follows_genesis | simpl; reflexivity]
  | |- Follows _ (if _ then _ else _) _ => fail 1
  | |- Follows _ ?m _ =>
      progress (unfold create_key, write_file, genesis_helper, put_file,
                register_validator, insert_waypoint, copy_genesis)
  | |- Follows _ _ _ => progress (cbv beta iota zeta)
  end.

Ltac follows := repeat follows_step.

Lemma register_validator_follows vn fn tp x :
  Follows remote_kind (register_validator vn fn tp x)
    [KOwnerKey (validator_pod_name (fst x)); KOperatorKey (validator_pod_name (fst x));
     KValidatorConfig (validator_pod_name (fst x)); KSetOperator (validator_pod_name (fst x))].
Proof. destruct x as [i node]. eapply Follows_eq; [follows | reflexivity]. Qed.

Lemma insert_waypoint_follows tp x :
  Follows remote_kind (insert_waypoint tp x) [KWaypoint (validator_pod_name (fst x))].
Proof. destruct x as [i node]. eapply Follows_eq; [follows | reflexivity]. Qed.

Lemma copy_genesis_follows x :
  Follows remote_kind (copy_genesis x) [KCopyGenesis (validator_pod_name (fst x))].
Proof. destruct x as [i node]. eapply Follows_eq; [follows | reflexivity]. Qed.

(** The remote calls of [generate_genesis] follow the order of
    [claimed_genesis_order]. *)
Lemma generate_genesis_follows nv vault_nodes validator_nodes fullnode_nodes :
  Follows remote_kind (generate_genesis nv vault_nodes validator_nodes fullnode_nodes)
    (claimed_genesis_order (map validator_pod_name (seq 0 (length vault_nodes)))
                           (map validator_pod_name (seq 0 (length validator_nodes)))).
Proof.
  unfold generate_genesis. eapply Follows_eq.
  - repeat (first
      [ match goal with
        | |- Follows _ (for_each (register_validator _ _ _) _) _ =>
            apply (Follows_for_each _ _ (fun x =>
              [KOwnerKey (validator_pod_name (fst x)); KOperatorKey (validator_pod_name (fst x));
               KValidatorConfig (validator_pod_name (fst x));
               KSetOperator (validator_pod_name (fst x))]));
            intros x _; apply register_validator_follows
        | |- Follows _ (for_each (insert_waypoint _) _) _ =>
            apply (Follows_for_each _ _ (fun x => [KWaypoint (validator_pod_name (fst x))]));
            intros x _; apply insert_waypoint_follows
        | |- Follows _ (try_join_all (map copy_genesis _)) _ =>
            apply (Follows_try_join_all _ _ (fun x => [KCopyGenesis (validator_pod_name (fst x))]));
            intros x _; apply copy_genesis_follows
        end
      | follows_step ]).
  - unfold enumerate, claimed_genesis_order.
    rewrite (flat_map_enumerate_fst (fun i =>
      [KOwnerKey (validator_pod_name i); KOperatorKey (validator_pod_name i);
       KValidatorConfig (validator_pod_name i); KSetOperator (validator_pod_name i)])).
    rewrite (flat_map_enumerate_fst (fun i => [KWaypoint (validator_pod_name i)])).
    rewrite (flat_map_enumerate_fst (fun i => [KCopyGenesis (validator_pod_name i)])).
    rewrite !flat_map_singleton, !map_map, flat_map_map_fun.
    simpl. rewrite !app_nil_r. reflexivity.
Qed.

(** C4: [initialize_vault i node] creates, in the store of [node], the
    shared root key if and only if [i = 0], then the six keys owner,
    operator, consensus, execution, validator_network and fullnode_network
    prefixed by the pod name of validator [i]: exactly these on success,
    and a prefix of them when a creation fails. *)
Theorem initialize_vault_key_slots i node :
  Follows created_key (initialize_vault i node)
    (claimed_vault_slots i (validator_pod_name i) (vault_url (internal_ip node))).
Proof.
  unfold initialize_vault, claimed_vault_slots. cbv zeta.
  apply Follows_bind.
  - destruct (Nat.eqb i 0); [| apply Follows_ret].
    apply Follows_map_err. unfold create_key.
    eapply Follows_eq; [apply Follows_call_unit | reflexivity].
  - intros _.
    apply (Follows_for_each created_key _
             (fun k => [(vault_url (internal_ip node), cat [validator_pod_name i; "__"; k])])).
    intros k _. apply Follows_map_err. unfold create_key.
    eapply Follows_eq; [apply Follows_call_unit | reflexivity].
Qed.

(** C9: [cfg_overrides] is the default entry followed by the caller's
    entries unchanged, and every validator and fullnode spawned by the
    bootstrap run is configured with exactly this list. *)
Theorem cfg_overrides_everywhere tag params clean :
  cfg_overrides params = "prune_window=50000" :: cfg params /\
  Seg (forall_sp (overrides_are (cfg_overrides params))) (setup_cluster tag params clean).
Proof.
  split; [reflexivity |].
  seg; simpl; repeat constructor; reflexivity.
Qed.

(** C3 (corrected): every validator spawned takes as seed peer the
    internal address of validator node 0, and every fullnode of validator
    group [v] the internal address of validator node [v]. *)
Theorem spawn_seed_peers nv nf lsr tag overrides clean validator_nodes lsrs_nodes
    fullnode_nodes n k :
  Seg (forall_sp (seeds_from validator_nodes))
    (try_join_all (map (spawn_validator nv nf lsr tag overrides clean validator_nodes lsrs_nodes)
                       (seq 0 n))) /\
  Seg (forall_sp (seeds_from validator_nodes))
    (try_join_all (flat_map (fun v => map (spawn_fullnode nv nf tag overrides clean
                                             validator_nodes fullnode_nodes v) (seq 0 k))
                            (seq 0 n))).
Proof.
  split; seg; simpl; (apply Forall_cons; [| apply Forall_nil]); cbn -[nth_error];
    rewrite ?Nat2Z.id;
    repeat match goal with H : nth_error _ _ = Some _ |- _ => rewrite H; clear H end;
    try exact I; reflexivity.
Qed.

(** C7: when [enable_lsr params] is false, the bootstrap run creates no
    key, never waits for a retry, calls no genesis tool and copies no
    artifact (so neither [initialize_vault] nor [generate_genesis] runs),
    allocates only validator and fullnode pods, and spawns every validator
    with no safety rules address. *)
Theorem no_lsr_no_secret_tier tag params clean :
  enable_lsr params = false ->
  Seg (forall_sp no_secret_tier) (setup_cluster tag params clean).
Proof.
  intros H. unfold setup_cluster, spawn_validator_and_fullnode_set. rewrite H.
  seg; simpl; (apply Forall_cons; [| apply Forall_nil]); unfold no_secret_tier; simpl; eauto.
Qed.

(** ** Closure of [ParseFatal] *)

Lemma PF_of_Seg {A} (m : M A) :
  Seg (forall_sp (fun e => is_bad_parse e = false)) m -> ParseFatal m.
Proof.
  intros H w. destruct (H w) as [t [E F]]. exists t. split; [exact E |].
  intros i ev He Hf. simpl in F. rewrite Forall_forall in F.
  rewrite (F ev (nth_error_In t i He)) in Hf. discriminate.
Qed.

Lemma PF_bind {A B} (m : M A) (k : A -> M B) :
  ParseFatal m -> (forall a, ParseFatal (k a)) -> ParseFatal (bind m k).
Proof.
  intros Hm Hk w. destruct (Hm w) as [t1 [E1 F1]]. unfold bind.
  destruct (m w) as [[a|e|p] w1]; simpl in *.
  - destruct (Hk a w1) as [t2 [E2 F2]]. exists (t1 ++ t2). split.
    + rewrite E2, E1, app_assoc. reflexivity.
    + intros i ev He Hf. destruct (Nat.lt_ge_cases i (length t1)) as [Hlt|Hge].
      * rewrite nth_error_app1 in He by assumption. destruct (F1 i ev He Hf) as [_ []].
      * rewrite nth_error_app2 in He by assumption.
        destruct (F2 _ _ He Hf) as [Hl Hn].
        split; [rewrite length_app; lia | exact Hn].
  - exists t1. split; [assumption |].
    intros i ev He Hf. destruct (F1 i ev He Hf) as [_ []].
  - exists t1. split; [assumption |].
    intros i ev He Hf. destruct (F1 i ev He Hf) as [Hl _]. split; [exact Hl | exact I].
Qed.

Lemma PF_map_err {A} f (m : M A) : ParseFatal m -> ParseFatal (map_err f m).
Proof.
  intros Hm w. destruct (Hm w) as [t [E F]]. unfold map_err.
  destruct (m w) as [[a|e|p] w1]; simpl in *; exists t; (split; [assumption |]);
    intros i ev He Hf; destruct (F i ev He Hf) as [Hl Hn]; (split; [assumption | simpl in *; tauto]).
Qed.

Lemma PF_expect {A} msg (m : M A) : ParseFatal m -> ParseFatal (expect msg m).
Proof.
  intros Hm w. destruct (Hm w) as [t [E F]]. unfold expect.
  destruct (m w) as [[a|e|p] w1]; simpl in *; exists t; (split; [assumption |]);
    intros i ev He Hf; destruct (F i ev He Hf) as [Hl Hn]; (split; [assumption | simpl in *; tauto]).
Qed.

Lemma PF_parse_network_address s : ParseFatal (parse_network_address s).
Proof.
  intros w. unfold parse_network_address.
  destruct (parse_addr s); simpl; eexists; split; try reflexivity;
    intros [|[|i]] ev He Hf; try discriminate.
  - injection He as <-. discriminate.
  - split; [reflexivity | exact I].
Qed.

Lemma PF_try_join_all {A} (ms : list (M A)) :
  (forall m, In m ms -> ParseFatal m) -> ParseFatal (try_join_all ms).
Proof.
  induction ms as [|m ms IH]; intros H; simpl.
  - apply PF_of_Seg, Seg_ret.
  - apply PF_bind; [apply H; left; reflexivity |]. intros a.
    apply PF_bind; [apply IH; intros; apply H; right; assumption |].
    intros; apply PF_of_Seg, Seg_ret.
Qed.

Lemma PF_for_each {A} (f : A -> M unit) l :
  (forall x, In x l -> ParseFatal (f x)) -> ParseFatal (for_each f l).
Proof.
  induction l as [|x l IH]; intros H; simpl.
  - apply PF_of_Seg, Seg_ret.
  - apply PF_bind; [apply H; left; reflexivity |].
    intros _; apply IH; intros; apply H; right; assumption.
Qed.

Ltac pf_leaf :=
  apply PF_of_Seg; seg; simpl; (apply Forall_cons; [| apply Forall_nil]); reflexivity.

Ltac pf_step :=
  match goal with
  | |- ParseFatal (bind _ _) => apply PF_bind; [ | intro ]
  | |- ParseFatal (map_err _ _) => apply PF_map_err
  | |- ParseFatal (expect _ _) => apply PF_expect
  | |- ParseFatal (parse_network_address _) => apply PF_parse_network_address
  | |- ParseFatal (try_join_all _) => apply PF_try_join_all; intros ? ?; in_inv
  | |- ParseFatal (for_each _ _) => apply PF_for_each; intros ? ?; in_inv
  | |- ParseFatal (ret _) => pf_leaf
  | |- ParseFatal (fail _) => pf_leaf
  | |- ParseFatal (panic _) => pf_leaf
  | |- ParseFatal (index _ _) => pf_leaf
  | |- ParseFatal (write_fs _ _) => pf_leaf
  | |- ParseFatal (call_unit _) => pf_leaf
  | |- ParseFatal get_workspace => pf_leaf
  | |- ParseFatal (allocate_node _) => pf_leaf
  | |- ParseFatal (spawn_new_instance _) => pf_leaf
  | |- ParseFatal (read_file _) => pf_leaf
  | |- ParseFatal (genesis _ _) => pf_leaf
  | |- ParseFatal (retry_async _ _) => pf_leaf
  | |- ParseFatal (if ?b then _ else _) => let E := fresh "Eb" in destruct b eqn:E
  | |- ParseFatal (match ?x with _ => _ end) => destruct x
  | |- ParseFatal _ =>
      progress (unfold cleanup, set_asg_size, clean_data, create_key, write_file,
                genesis_helper, put_file, register_validator, insert_waypoint, copy_genesis,
                generate_genesis, spawn_vault, spawn_lsr, spawn_validator, spawn_fullnode,
                spawn_validator_and_fullnode_set, setup_cluster)
  | |- ParseFatal _ => progress (cbv beta iota zeta)
  end.

Lemma setup_cluster_parse_fatal tag params clean : ParseFatal (setup_cluster tag params clean).
Proof. repeat pf_step. Qed.

(** ** Inversion of successful runs *)

Lemma bind_Ok_inv {A B} (m : M A) (k : A -> M B) w b w' :
  bind m k w = (Ok b, w') -> exists a w1, m w = (Ok a, w1) /\ k a w1 = (Ok b, w').
Proof.
  unfold bind. destruct (m w) as [[a|e|p] w1]; intros H; try discriminate.
  exists a, w1. split; [reflexivity | exact H].
Qed.

Lemma map_err_Ok_inv {A} f (m : M A) w a w' :
  map_err f m w = (Ok a, w') -> m w = (Ok a, w').
Proof. unfold map_err. destruct (m w) as [[b|e|p] w1]; intros H; congruence. Qed.

Lemma ret_Ok_inv {A} (a b : A) w w' : ret a w = (Ok b, w') -> a = b /\ w = w'.
Proof. unfold ret. intros H. injection H as -> ->. split; reflexivity. Qed.

Lemma Seg_Ok {A} (Q : segprop) (m : M A) w r w' :
  Seg Q m -> m w = (r, w') -> exists t, trace w' = trace w ++ t /\ Q t.
Proof. intros H E. destruct (H w) as [t [Et Qt]]. rewrite E in Et. exists t. auto. Qed.

Lemma try_join_all_cons_Ok_inv {A} (m : M A) ms w l w' :
  try_join_all (m :: ms) w = (Ok l, w') -> exists a w1, m w = (Ok a, w1).
Proof.
  simpl. intros H. apply bind_Ok_inv in H. destruct H as [a [w1 [H _]]]. eauto.
Qed.

Lemma allocate_node_Ok_inv pod w n w' :
  allocate_node pod w = (Ok n, w') ->
  w' = mkWorld (trace w ++ [Ev (AllocateNode pod) (RNode n)]) (files w).
Proof.
  unfold allocate_node, bind, call. simpl.
  destruct (answer (trace w) (AllocateNode pod)); simpl; intros H; try discriminate.
  injection H as -> <-. reflexivity.
Qed.

Lemma alloc_all_Ok (pod_name : nat -> string) k n w l w' :
  try_join_all (map (fun i => allocate_node (pod_name i)) (seq k n)) w = (Ok l, w') ->
  length l = n /\ files w' = files w /\ trace w' = trace w ++ alloc_events pod_name k l.
Proof.
  revert k w l. induction n as [|n IH]; intros k w l H; simpl in H.
  - apply ret_Ok_inv in H. destruct H as [<- <-]. simpl. rewrite app_nil_r. auto.
  - apply bind_Ok_inv in H. destruct H as [x [w1 [H1 H]]].
    apply bind_Ok_inv in H. destruct H as [xs [w2 [H2 H]]].
    apply ret_Ok_inv in H. destruct H as [<- <-].
    apply allocate_node_Ok_inv in H1. subst w1.
    destruct (IH _ _ _ H2) as [L [F T]]. simpl in *.
    split; [congruence |]. split; [exact F |].
    rewrite T, <- app_assoc. unfold alloc_events. simpl. rewrite L. reflexivity.
Qed.

Lemma alloc_events_In pod_name k l i x :
  nth_error l i = Some x -> In (Ev (AllocateNode (pod_name (k + i))) (RNode x))
                                (alloc_events pod_name k l).
Proof.
  unfold alloc_events. revert k i. induction l as [|y l IH]; intros k i H.
  - destruct i; discriminate.
  - destruct i as [|i]; simpl in *.
    + injection H as ->. left. rewrite Nat.add_0_r. reflexivity.
    + right. replace (k + S i) with (S k + i) by lia. apply IH, H.
Qed.

Lemma alloc_events_no_put pod_name k l : Forall no_put (alloc_events pod_name k l).
Proof.
  unfold alloc_events. apply Forall_forall. intros e He.
  apply in_map_iff in He. destruct He as [x [<- _]]. reflexivity.
Qed.

Ltac no_put_seg :=
  seg; simpl; (apply Forall_cons; [| apply Forall_nil]); reflexivity.

Ltac seg_ok H Q t Et Qt :=
  let Hs := fresh "Hs" in
  assert (Hs := H); eapply (Seg_Ok Q) in Hs; [destruct Hs as [t [Et Qt]] | no_put_seg].

(** A successful run with the vault backend has allocated the vault, LSR
    and validator nodes, run every vault initialization to success, and
    completed [generate_genesis]; nothing outside [generate_genesis]
    copies a file to a node. *)
Lemma run_Ok_genesis tag params clean w c w' :
  setup_cluster tag params clean w = (Ok c, w') ->
  enable_lsr params = true -> lsr_backend params = "vault" ->
  (1 <= num_validators params)%Z ->
  exists t1 t2 vn ln vnodes fnodes wg wg',
    trace wg = trace w ++ t1 /\
    generate_genesis (num_validators params) vn vnodes fnodes wg = (Ok tt, wg') /\
    trace w' = trace wg' ++ t2 /\
    Forall no_put t1 /\ Forall no_put t2 /\
    length vn = Z.to_nat (num_validators params) /\
    length ln = Z.to_nat (num_validators params) /\
    length vnodes = Z.to_nat (num_validators params) /\
    incl (alloc_events vault_pod_name 0 vn) t1 /\
    incl (alloc_events lsr_pod_name 0 ln) t1 /\
    incl (alloc_events validator_pod_name 0 vnodes) t1 /\
    (exists v0 vs wr wr', vn = v0 :: vs /\
       retry_async (fixed_retry_strategy 5000 15) (initialize_vault 0 v0) wr = (Ok tt, wr')).
Proof.
  intros H Hl Hb Hn. unfold setup_cluster in H.
  apply bind_Ok_inv in H. destruct H as [u1 [w1 [H1 H]]]. seg_ok H1 (forall_sp no_put) ta Eta Qta.
  apply bind_Ok_inv in H. destruct H as [ws [w2 [H2 H]]]. seg_ok H2 (forall_sp no_put) tb Etb Qtb.
  apply bind_Ok_inv in H. destruct H as [u3 [w3 [H3 H]]]. seg_ok H3 (forall_sp no_put) tc Etc Qtc.
  apply bind_Ok_inv in H. destruct H as [sets [w4 [H4 H]]].
  destruct sets as [[[vals lsrs] vaults] fns]. apply ret_Ok_inv in H. destruct H as [_ <-].
  apply map_err_Ok_inv in H4. unfold spawn_validator_and_fullnode_set in H4.
  rewrite Hl, Hb in H4. change (String.eqb "vault" "vault") with true in H4.
  cbv beta iota zeta in H4.
  apply bind_Ok_inv in H4. destruct H4 as [tiers [w5 [H5 H4]]].
  apply bind_Ok_inv in H5. destruct H5 as [vn [w6 [H6 H5]]].
  apply alloc_all_Ok in H6. destruct H6 as [Lvn [_ Evn]].
  apply bind_Ok_inv in H5. destruct H5 as [ln [w7 [H7 H5]]].
  apply alloc_all_Ok in H7. destruct H7 as [Lln [_ Eln]].
  apply ret_Ok_inv in H5. destruct H5 as [<- <-]. cbv beta iota in H4.
  apply bind_Ok_inv in H4. destruct H4 as [lsrs' [w8 [H8 H4]]]. seg_ok H8 (forall_sp no_put) td Etd Qtd.
  apply bind_Ok_inv in H4. destruct H4 as [vaults' [w9 [H9 H4]]]. seg_ok H9 (forall_sp no_put) te Ete Qte.
  apply bind_Ok_inv in H4. destruct H4 as [vnodes [w10 [H10 H4]]].
  apply alloc_all_Ok in H10. destruct H10 as [Lvv [_ Evv]].
  apply bind_Ok_inv in H4. destruct H4 as [fnodes [w11 [H11 H4]]]. seg_ok H11 (forall_sp no_put) tf Etf Qtf.
  apply bind_Ok_inv in H4. destruct H4 as [u [w12 [H12 H4]]].
  destruct vn as [|v0 vs]; [simpl in Lvn; lia |].
  apply bind_Ok_inv in H12. destruct H12 as [u' [w13 [H13 H12]]].
  assert (Hr := H13). seg_ok H13 (forall_sp no_put) tg Etg Qtg.
  unfold enumerate in Hr. simpl in Hr. apply try_join_all_cons_Ok_inv in Hr.
  destruct Hr as [[] [wr' Hr]].
  apply bind_Ok_inv in H4. destruct H4 as [vals' [w14 [H14 H4]]]. seg_ok H14 (forall_sp no_put) th Eth Qth.
  apply bind_Ok_inv in H4. destruct H4 as [fns' [w15 [H15 H4]]]. seg_ok H15 (forall_sp no_put) ti Eti Qti.
  apply ret_Ok_inv in H4. destruct H4 as [_ <-]. destruct u.
  exists (ta ++ tb ++ tc ++ alloc_events vault_pod_name 0 (v0 :: vs) ++
          alloc_events lsr_pod_name 0 ln ++ td ++ te ++
          alloc_events validator_pod_name 0 vnodes ++ tf ++ tg),
         (th ++ ti), (v0 :: vs), ln, vnodes, fnodes, w13, w12.
  simpl in Qta, Qtb, Qtc, Qtd, Qte, Qtf, Qtg, Qth, Qti.
  split; [rewrite Etg, Etf, Evv, Ete, Etd, Eln, Evn, Etc, Etb, Eta, <- !app_assoc;
          reflexivity |].
  split; [exact H12 |].
  split; [rewrite Eti, Eth, app_assoc; reflexivity |].
  split; [rewrite !Forall_app; repeat split; auto using alloc_events_no_put |].
  split; [rewrite Forall_app; auto |].
  split; [exact Lvn |]. split; [exact Lln |]. split; [exact Lvv |].
  split; [intros e He; rewrite !in_app_iff; tauto |].
  split; [intros e He; rewrite !in_app_iff; tauto |].
  split; [intros e He; rewrite !in_app_iff; tauto |].
  exists v0, vs, w11, wr'. split; [reflexivity | exact Hr].
Qed.

(** ** Key creations that always fail *)

Section AllFail.
Hypothesis create_key_fails :
  forall h url key, exists e, answer h (CreateKey url key) = RErr e.




End AllFail.

(** C2: the remote calls of [generate_genesis], by kind and by validator
    pod, are made in the order layout, root key, the four registrations of
    validator 0, of validator 1, ..., finalization, the waypoints in
    validator order, root key extraction, then one artifact copy per
    validator node: on success exactly this sequence, and on failure a
    prefix of it (no call of a later stage is made before every call of an
    earlier one has completed). *)
Theorem generate_genesis_call_order nv vault_nodes validator_nodes fullnode_nodes :
  Follows remote_kind (generate_genesis nv vault_nodes validator_nodes fullnode_nodes)
    (claimed_genesis_order (map validator_pod_name (seq 0 (length vault_nodes)))
                           (map validator_pod_name (seq 0 (length validator_nodes)))).
Proof. apply generate_genesis_follows. Qed.


(** ** The genesis artifact copies *)

Lemma filter_no_put t : Forall no_put t -> filter (fun e => is_put (ev_op e)) t = [].
Proof. induction 1 as [|e t He _ IH]; simpl; [reflexivity | rewrite He; exact IH]. Qed.

Definition copy_op (b : string) (x : nat * KubeNode) : op :=
  PutFile (name (snd x)) (validator_pod_name (fst x)) "/opt/libra/etc/genesis2.blob" b.

Lemma copy_genesis_Ok x w u w' :
  copy_genesis x w = (Ok u, w') ->
  exists b r, file_lookup (files w) GENESIS_PATH = Some b /\
    w' = mkWorld (trace w ++ [Ev (ReadFile GENESIS_PATH) (RText b); Ev (copy_op b x) r])
                 (files w).
Proof.
  destruct x as [i n]. unfold copy_genesis. intros H.
  apply bind_Ok_inv in H. destruct H as [b [w1 [H1 H]]].
  apply map_err_Ok_inv in H1. unfold read_file in H1.
  destruct (file_lookup (files w) GENESIS_PATH) as [c|] eqn:Ef;
    unfold bind, log, ret, fail in H1; simpl in H1; [| discriminate].
  injection H1 as <- <-.
  unfold put_file, call_unit, bind, call, unit_reply in H. simpl in H.
  destruct (answer _ _) eqn:Ea in H; unfold fail, ret in H; try discriminate;
    injection H as _ <-; eexists _, _; (split; [reflexivity |]);
    simpl; rewrite <- app_assoc; reflexivity.
Qed.

Lemma copies_Ok k nodes w l w' :
  try_join_all (map copy_genesis (combine (seq k (length nodes)) nodes)) w = (Ok l, w') ->
  exists t, trace w' = trace w ++ t /\ files w' = files w /\
    (nodes <> [] -> exists b, file_lookup (files w) GENESIS_PATH = Some b) /\
    forall b, file_lookup (files w) GENESIS_PATH = Some b ->
      map ev_op (filter (fun e => is_put (ev_op e)) t) =
        map (copy_op b) (combine (seq k (length nodes)) nodes) /\
      (nodes <> [] -> In (Ev (ReadFile GENESIS_PATH) (RText b)) t).
Proof.
  revert k w l. induction nodes as [|n nodes IH]; intros k w l H;
    cbn [length seq combine map try_join_all] in H.
  - apply ret_Ok_inv in H. destruct H as [_ <-]. exists [].
    rewrite app_nil_r. repeat split; try reflexivity; intros; try contradiction.
  - apply bind_Ok_inv in H. destruct H as [u [w1 [H1 H]]].
    apply bind_Ok_inv in H. destruct H as [us [w2 [H2 H]]].
    apply ret_Ok_inv in H. destruct H as [_ <-].
    apply copy_genesis_Ok in H1. destruct H1 as [b [r [Eb ->]]].
    destruct (IH _ _ _ H2) as [t [Et [Ef [_ Ht]]]]. simpl in Et, Ef.
    exists ([Ev (ReadFile GENESIS_PATH) (RText b); Ev (copy_op b (k, n)) r] ++ t).
    split; [rewrite Et, <- app_assoc; reflexivity |].
    split; [exact Ef |].
    split; [intros _; exists b; exact Eb |].
    intros b' Eb'. rewrite Eb in Eb'. injection Eb' as <-.
    destruct (Ht b Eb) as [Hp _]. split.
    + simpl. rewrite Hp. reflexivity.
    + intros _. left. reflexivity.
Qed.

Lemma generate_genesis_Ok_copies nv vn vnodes fnodes w u w' :
  generate_genesis nv vn vnodes fnodes w = (Ok u, w') -> vnodes <> [] ->
  exists t b, trace w' = trace w ++ t /\
    In (Ev (ReadFile GENESIS_PATH) (RText b)) t /\
    map ev_op (filter (fun e => is_put (ev_op e)) t) = map (copy_op b) (enumerate vnodes).
Proof.
  intros H Hne. unfold generate_genesis in H. cbv zeta in H.
  apply bind_Ok_inv in H. destruct H as [u1 [w1 [H1 H]]]. seg_ok H1 (forall_sp no_put) ta Eta Qta.
  apply bind_Ok_inv in H. destruct H as [u2 [w2 [H2 H]]]. seg_ok H2 (forall_sp no_put) tb Etb Qtb.
  apply bind_Ok_inv in H. destruct H as [u3 [w3 [H3 H]]]. seg_ok H3 (forall_sp no_put) tc Etc Qtc.
  apply bind_Ok_inv in H. destruct H as [v0 [w4 [H4 H]]]. seg_ok H4 (forall_sp no_put) td Etd Qtd.
  apply bind_Ok_inv in H. destruct H as [u5 [w5 [H5 H]]]. seg_ok H5 (forall_sp no_put) te Ete Qte.
  apply bind_Ok_inv in H. destruct H as [u6 [w6 [H6 H]]]. seg_ok H6 (forall_sp no_put) tf Etf Qtf.
  apply bind_Ok_inv in H. destruct H as [u7 [w7 [H7 H]]]. seg_ok H7 (forall_sp no_put) tg Etg Qtg.
  apply bind_Ok_inv in H. destruct H as [u8 [w8 [H8 H]]]. seg_ok H8 (forall_sp no_put) th Eth Qth.
  apply bind_Ok_inv in H. destruct H as [v0' [w9 [H9 H]]]. seg_ok H9 (forall_sp no_put) ti Eti Qti.
  apply bind_Ok_inv in H. destruct H as [u10 [w10 [H10 H]]]. seg_ok H10 (forall_sp no_put) tj Etj Qtj.
  apply bind_Ok_inv in H. destruct H as [l [w11 [H11 H]]].
  apply ret_Ok_inv in H. destruct H as [_ <-].
  apply map_err_Ok_inv in H11. apply copies_Ok in H11.
  destruct H11 as [tk [Etk [_ [Hb Hk]]]].
  destruct (Hb Hne) as [b Eb]. destruct (Hk b Eb) as [Hp Hr].
  exists (ta ++ tb ++ tc ++ td ++ te ++ tf ++ tg ++ th ++ ti ++ tj ++ tk), b.
  simpl in Qta, Qtb, Qtc, Qtd, Qte, Qtf, Qtg, Qth, Qti, Qtj.
  split; [rewrite Etk, Etj, Eti, Eth, Etg, Etf, Ete, Etd, Etc, Etb, Eta, <- !app_assoc;
          reflexivity |].
  split; [rewrite !in_app_iff; auto 20 |].
  rewrite !filter_app, !map_app, Hp.
  rewrite !filter_no_put by assumption. reflexivity.
Qed.

(** C6: a failed artifact copy is the last call of the run, which then
    fails; and after a successful run with the vault backend and at least
    one validator, the copies made are exactly one per validator [i], in
    index order, each pushing the same bytes [b], read from
    [GENESIS_PATH], to the node allocated for validator [i] at
    /opt/libra/etc/genesis2.blob. *)
Theorem genesis_copies tag params clean :
  (forall w, exists t, trace (snd (setup_cluster tag params clean w)) = trace w ++ t /\
     forall k e, nth_error t k = Some e -> is_put (ev_op e) = true -> failed e = true ->
       S k = length t /\ not_ok (fst (setup_cluster tag params clean w))) /\
  (forall w c w', setup_cluster tag params clean w = (Ok c, w') ->
     enable_lsr params = true -> lsr_backend params = "vault" ->
     (1 <= num_validators params)%Z ->
     exists t vnodes b, trace w' = trace w ++ t /\
       length vnodes = Z.to_nat (num_validators params) /\
       incl (alloc_events validator_pod_name 0 vnodes) t /\
       In (Ev (ReadFile GENESIS_PATH) (RText b)) t /\
       map ev_op (filter (fun e => is_put (ev_op e)) t) =
         map (fun x => PutFile (name (snd x)) (validator_pod_name (fst x))
                               "/opt/libra/etc/genesis2.blob" b)
             (enumerate vnodes)).
Proof.
  split.
  - intros w. destruct (setup_cluster_fatal tag params clean w) as [t [Et F]].
    exists t. split; [exact Et |]. intros k e He Hp Hf. apply (F k e He).
    unfold fatal. rewrite Hf. destruct e as [[] r]; try discriminate. reflexivity.
  - intros w c w' H Hl Hb Hn.
    destruct (run_Ok_genesis _ _ _ _ _ _ H Hl Hb Hn)
      as [t1 [t2 [vn [ln [vnodes [fnodes [wg [wg' [E1 [Hg [E2 [Q1 [Q2
          [_ [_ [Lv [_ [_ [Iv _]]]]]]]]]]]]]]]]]]].
    destruct (generate_genesis_Ok_copies _ _ _ _ _ _ _ Hg) as [tg [b [Eg [Ir Hp]]]].
    { intros ->. simpl in Lv. lia. }
    exists (t1 ++ tg ++ t2), vnodes, b.
    split; [rewrite E2, Eg, E1, <- !app_assoc; reflexivity |].
    split; [exact Lv |].
    split; [intros e He; apply in_or_app; left; apply Iv, He |].
    split; [apply in_or_app; right; apply in_or_app; left; exact Ir |].
    rewrite !filter_app, !map_app, (filter_no_put t1 Q1), (filter_no_put t2 Q2).
    simpl. rewrite app_nil_r. exact Hp.
Qed.

(** C10: with no [--enable-lsr] option [enable_lsr] is true; a successful
    run with these parameters and the default backend "vault" and at
    least one validator allocates a vault and an LSR node for every
    validator index and runs the genesis pipeline to completion. *)
Theorem lsr_enabled_by_default tag fpv cfg nv backend clean :
  enable_lsr (mkParams fpv cfg nv None backend) = true /\
  (forall w c w', setup_cluster tag (mkParams fpv cfg nv None "vault") clean w = (Ok c, w') ->
     (1 <= nv)%Z ->
     exists t, trace w' = trace w ++ t /\
       (forall i, i < Z.to_nat nv ->
          (exists n, In (Ev (AllocateNode (vault_pod_name i)) (RNode n)) t) /\
          (exists n, In (Ev (AllocateNode (lsr_pod_name i)) (RNode n)) t)) /\
       exists t1 tg t2, t = t1 ++ tg ++ t2 /\
         flat_map (fun e => remote_kind (ev_op e)) tg =
           claimed_genesis_order (map validator_pod_name (seq 0 (Z.to_nat nv)))
                                 (map validator_pod_name (seq 0 (Z.to_nat nv)))).
Proof.
  split; [reflexivity |].
  intros w c w' H Hn.
  destruct (run_Ok_genesis _ _ _ _ _ _ H eq_refl eq_refl Hn)
    as [t1 [t2 [vn [ln [vnodes [fnodes [wg [wg' [E1 [Hg [E2 [_ [_
        [Lvn [Lln [Lv [Ivn [Iln _]]]]]]]]]]]]]]]]]].
  simpl in Lvn, Lln, Lv.
  destruct (generate_genesis_follows (num_validators (mkParams fpv cfg nv None "vault"))
              vn vnodes fnodes wg) as [tg [Eg [_ Hf]]].
  rewrite Hg in Eg, Hf. simpl in Eg, Hf. specialize (Hf eq_refl).
  exists (t1 ++ tg ++ t2). split; [rewrite E2, Eg, E1, <- !app_assoc; reflexivity |].
  split.
  - intros i Hi. split.
    + destruct (nth_error vn i) as [x|] eqn:Ex;
        [| apply nth_error_None in Ex; lia].
      exists x. apply in_or_app. left. apply Ivn. apply (alloc_events_In _ 0 _ _ _ Ex).
    + destruct (nth_error ln i) as [x|] eqn:Ex;
        [| apply nth_error_None in Ex; lia].
      exists x. apply in_or_app. left. apply Iln. apply (alloc_events_In _ 0 _ _ _ Ex).
  - exists t1, tg, t2. split; [reflexivity |]. rewrite Hf, Lvn, Lv. reflexivity.
Qed.

(** C8: a network address that fails to parse while a validator is
    registered ends the bootstrap run: the failed parse is its last call
    (nothing is attempted again after it) and the run panics. *)
Theorem bad_address_aborts tag params clean w :
  exists t, trace (snd (setup_cluster tag params clean w)) = trace w ++ t /\
    forall k s msg, nth_error t k = Some (Ev (ParseAddr s) (RErr msg)) ->
      S k = length t /\ is_panic (fst (setup_cluster tag params clean w)).
Proof.
  destruct (setup_cluster_parse_fatal tag params clean w) as [t [Et F]].
  exists t. split; [exact Et |]. intros k s msg H. apply (F k _ H). reflexivity.
Qed.

(** ** Further properties of the bootstrap *)

Lemma Seg_bind_assoc {A B C} (Q : segprop) (m : M A) (f : A -> M B) (g : B -> M C) :
  Seg Q (bind m (fun x => bind (f x) g)) -> Seg Q (bind (bind m f) g).
Proof.
  intros H w. destruct (H w) as [t [E Qt]]. exists t. split; [| exact Qt].
  rewrite <- E. unfold bind. destruct (m w) as [[a|e|p] w1]; reflexivity.
Qed.

(** X1: when the initial cleanup fails with [e], the run fails at once with
    the error "cleanup on startup failed: e", having made that one call. *)
Theorem cleanup_failure_aborts tag params clean w e :
  answer (trace w) Cleanup = RErr e ->
  setup_cluster tag params clean w =
    (Err (cat ["cleanup on startup failed: "; e]),
     mkWorld (trace w ++ [Ev Cleanup (RErr e)]) (files w)).
Proof.
  intros H. cbv [setup_cluster bind map_err cleanup call_unit call unit_reply fail].
  rewrite H. reflexivity.
Qed.

(** X2: when the cleanup succeeds and the workspace query fails with [e],
    the run panics with "Failed to get workspace: e" after these two calls. *)
Theorem workspace_failure_panics tag params clean w r e :
  answer (trace w) Cleanup = r -> (forall msg, r <> RErr msg) ->
  answer (trace w ++ [Ev Cleanup r]) GetWorkspace = RErr e ->
  setup_cluster tag params clean w =
    (Panic (cat ["Failed to get workspace"; ": "; e]),
     mkWorld (trace w ++ [Ev Cleanup r; Ev GetWorkspace (RErr e)]) (files w)).
Proof.
  intros H1 H2 H3.
  cbv [setup_cluster bind map_err expect cleanup get_workspace call_unit call unit_reply
       fail ret].
  rewrite H1. cbn [trace files].
  destruct r as [m| | | |]; [destruct (H2 m eq_refl) | ..];
    simpl; rewrite H3; simpl; rewrite <- app_assoc; reflexivity.
Qed.

(** X3: without [clean_data] the run never wipes the data of a node. *)
Theorem no_clean_no_wipe tag params :
  Seg (forall_sp not_clean_data) (setup_cluster tag params false).
Proof.
  seg; simpl; (apply Forall_cons; [| apply Forall_nil]);
    first [exact I | discriminate].
Qed.

(** X4: every validator, fullnode and LSR instance the run spawns is
    configured with the run's validator count, fullnodes per validator,
    secret tier flag, image tag and LSR backend. *)
Theorem spawned_configs_match tag params clean :
  Seg (forall_sp (config_matches (num_validators params) (fullnodes_per_validator params)
                   (enable_lsr params) tag (lsr_backend params)))
      (setup_cluster tag params clean).
Proof.
  seg; simpl; (apply Forall_cons; [| apply Forall_nil]); unfold config_matches; simpl;
    first [exact I | repeat split].
Qed.

(** X5: a validator of group [i] is spawned with the address of LSR node [i]
    as its safety rules address when the secret tier is enabled, and with
    none when it is disabled. *)
Theorem validator_safety_rules nv nf lsr tag overrides clean validator_nodes lsrs_nodes n :
  Seg (forall_sp (safety_rules_from lsr lsrs_nodes))
    (try_join_all (map (spawn_validator nv nf lsr tag overrides clean validator_nodes lsrs_nodes)
                       (seq 0 n))).
Proof.
  apply Seg_try_join_all. intros m Hm. in_inv. unfold spawn_validator.
  apply Seg_bind_index. intros v0 Hv0.
  destruct lsr.
  - apply Seg_bind_assoc. apply Seg_bind_index. intros l Hl. apply Seg_bind_ret.
    cbv beta. seg; simpl; (apply Forall_cons; [| apply Forall_nil]);
      unfold safety_rules_from; cbn -[nth_error]; rewrite ?Nat2Z.id, ?Hl; first [exact I | reflexivity].
  - apply Seg_bind_ret. cbv beta.
    seg; simpl; (apply Forall_cons; [| apply Forall_nil]);
      unfold safety_rules_from; simpl; first [exact I | reflexivity].
Qed.

Lemma Follows_of_Seg {X A} (proj : op -> list X) (m : M A) :
  Seg (forall_sp (fun e => proj (ev_op e) = [])) m -> Follows proj m [].
Proof.
  intros H w. destruct (H w) as [t [E F]]. exists t. simpl in F.
  assert (Hz : flat_map (fun e => proj (ev_op e)) t = []).
  { clear E. induction F as [|e t He F IH]; simpl; [reflexivity | rewrite He, IH; reflexivity]. }
  rewrite Hz. split; [exact E | split; [exists []; reflexivity | intros; reflexivity]].
Qed.

Lemma Follows_bind_post {X A B} (proj : op -> list X) (m : M A) (k : A -> M B) E1 E2
    (P : A -> Prop) :
  Follows proj m E1 -> (forall w a w1, m w = (Ok a, w1) -> P a) ->
  (forall a, P a -> Follows proj (k a) E2) -> Follows proj (bind m k) (E1 ++ E2).
Proof.
  intros Hm HP Hk w. destruct (Hm w) as [t1 [Et1 [[s1 P1] O1]]]. pose proof (HP w) as HPw.
  unfold bind. destruct (m w) as [[a|e|p] w1]; simpl in *.
  - specialize (O1 eq_refl).
    destruct (Hk a (HPw a w1 eq_refl) w1) as [t2 [Et2 [[s2 P2] O2]]]. exists (t1 ++ t2).
    rewrite Et2, Et1, <- app_assoc, flat_map_app, O1.
    split; [reflexivity |]. split.
    + exists s2. rewrite P2, app_assoc. reflexivity.
    + intros H. rewrite (O2 H). reflexivity.
  - exists t1. split; [exact Et1 |]. split; [| discriminate].
    exists (s1 ++ E2). rewrite P1, app_assoc. reflexivity.
  - exists t1. split; [exact Et1 |]. split; [| discriminate].
    exists (s1 ++ E2). rewrite P1, app_assoc. reflexivity.
Qed.

Lemma Follows_bind_nil {X A B} (proj : op -> list X) (m : M A) (k : A -> M B) E :
  Follows proj m [] -> (forall a, Follows proj (k a) E) -> Follows proj (bind m k) E.
Proof. intros Hm Hk. apply (Follows_bind proj m k [] E Hm Hk). Qed.

Lemma Follows_bind_last {X A B} (proj : op -> list X) (m : M A) (k : A -> M B) E :
  Follows proj m E -> (forall a, Follows proj (k a) []) -> Follows proj (bind m k) E.
Proof.
  intros Hm Hk. eapply Follows_eq; [apply (Follows_bind proj m k E [] Hm Hk) | apply app_nil_r].
Qed.

Lemma cleanup_Ok_step {B} f (k : unit -> M B) w r :
  answer (trace w) Cleanup = r -> (forall msg, r <> RErr msg) ->
  bind (map_err f cleanup) k w = k tt (mkWorld (trace w ++ [Ev Cleanup r]) (files w)).
Proof.
  intros H1 H2. cbv [bind map_err cleanup call_unit call unit_reply fail ret].
  rewrite H1. destruct r as [m| | | |]; [destruct (H2 m eq_refl) | ..]; reflexivity.
Qed.

Lemma workspace_Ok_step {B} (k : string -> M B) w ws :
  answer (trace w) GetWorkspace = RText ws ->
  bind (expect "Failed to get workspace" get_workspace) k w =
    k ws (mkWorld (trace w ++ [Ev GetWorkspace (RText ws)]) (files w)).
Proof.
  intros H. cbv [bind expect get_workspace call fail ret]. rewrite H. reflexivity.
Qed.

(** X7: once the cleanup has succeeded and the workspace is [ws], the run
    resizes the autoscaling group [ws-k8s-testnet-validators] only with
    [clean_data]: first to 0 instances (minimum healthy 0, waiting for the
    scale-up and the scale-down), then to the instance count (minimum healthy
    5, waiting for the scale-up only). A failed run has made a prefix of these
    requests, a successful one both. *)
Theorem scaling_requests tag params clean w r ws :
  answer (trace w) Cleanup = r -> (forall msg, r <> RErr msg) ->
  answer (trace w ++ [Ev Cleanup r]) GetWorkspace = RText ws ->
  exists t,
    trace (snd (setup_cluster tag params clean w)) =
      trace w ++ [Ev Cleanup r; Ev GetWorkspace (RText ws)] ++ t /\
    is_prefix (flat_map (fun e => asg_call (ev_op e)) t)
      (if clean
       then [(0%Z, 0%Z, cat [ws; "-k8s-testnet-validators"], true, true);
             (instance_count params, 5%Z, cat [ws; "-k8s-testnet-validators"], true, false)]
       else []) /\
    (is_ok (fst (setup_cluster tag params clean w)) = true ->
     flat_map (fun e => asg_call (ev_op e)) t =
       (if clean
        then [(0%Z, 0%Z, cat [ws; "-k8s-testnet-validators"], true, true);
              (instance_count params, 5%Z, cat [ws; "-k8s-testnet-validators"], true, false)]
        else [])).
Proof.
  intros H1 H2 H3. unfold setup_cluster.
  rewrite (cleanup_Ok_step _ _ w r H1 H2).
  rewrite (workspace_Ok_step _ (mkWorld (trace w ++ [Ev Cleanup r]) (files w)) ws H3).
  cbv beta zeta.
  match goal with
  | |- exists t, trace (snd (?R ?w2)) = _ /\ _ =>
      assert (HF : Follows asg_call R
                     (if clean
                      then [(0%Z, 0%Z, cat [ws; "-k8s-testnet-validators"], true, true);
                            (instance_count params, 5%Z, cat [ws; "-k8s-testnet-validators"],
                             true, false)]
                      else []));
      [| destruct (HF w2) as [t [Et HP]]; exists t;
         split; [rewrite Et; cbn [trace]; rewrite <- !app_assoc; reflexivity | exact HP] ]
  end.
  apply Follows_bind_last.
  - destruct clean; [| apply Follows_ret].
    unfold set_asg_size. eapply Follows_eq; [follows | reflexivity].
  - intros _. apply Follows_of_Seg.
    seg; simpl; (apply Forall_cons; [| apply Forall_nil]); reflexivity.
Qed.

Lemma try_join_all_Ok_length {A} (ms : list (M A)) w l w' :
  try_join_all ms w = (Ok l, w') -> length l = length ms.
Proof.
  revert w l w'. induction ms as [|m ms IH]; intros w l w' H; simpl in H.
  - apply ret_Ok_inv in H. destruct H as [<- _]. reflexivity.
  - apply bind_Ok_inv in H. destruct H as [x [w1 [_ H]]].
    apply bind_Ok_inv in H. destruct H as [xs [w2 [H2 H]]].
    apply ret_Ok_inv in H. destruct H as [<- _]. simpl. rewrite (IH _ _ _ H2). reflexivity.
Qed.

Lemma length_enumerate {A} (l : list A) : length (enumerate l) = length l.
Proof. unfold enumerate. rewrite length_combine, length_seq. apply Nat.min_id. Qed.

Lemma length_flat_map_map {Y Z B} (g : Y -> Z -> B) (V : list Y) (L : list Z) :
  length (flat_map (fun v => map (g v) L) V) = length V * length L.
Proof.
  induction V as [|v V IH]; simpl; [reflexivity |].
  rewrite length_app, length_map, IH. reflexivity.
Qed.

Lemma index_Ok_inv {A} (l : list A) i w a w' :
  index l i w = (Ok a, w') -> nth_error l i = Some a /\ w' = w.
Proof.
  unfold index. destruct (nth_error l i); intros H; [| discriminate].
  apply ret_Ok_inv in H. destruct H as [-> ->]. split; reflexivity.
Qed.

Lemma for_each_Ok_inv {A} (f : A -> M unit) l w u w' :
  for_each f l w = (Ok u, w') -> forall x, In x l -> exists w1 w2, f x w1 = (Ok tt, w2).
Proof.
  revert w. induction l as [|y l IH]; intros w H x Hx; [destruct Hx |].
  simpl in H. apply bind_Ok_inv in H. destruct H as [[] [w1 [H1 H]]].
  destruct Hx as [<- | Hx]; [exists w, w1; exact H1 | exact (IH _ H x Hx)].
Qed.

Lemma In_combine_seq {A} (l : list A) k i x :
  nth_error l i = Some x -> In (k + i, x) (combine (seq k (length l)) l).
Proof.
  revert i k. induction l as [|y l IH]; intros i k H; [destruct i; discriminate |].
  destruct i as [|i]; simpl in *.
  - injection H as ->. left. rewrite Nat.add_0_r. reflexivity.
  - right. replace (k + S i) with (S k + i) by lia. apply IH, H.
Qed.

Lemma In_enumerate {A} (l : list A) i x :
  nth_error l i = Some x -> In (i, x) (enumerate l).
Proof. intros H. exact (In_combine_seq l 0 i x H). Qed.

(** A successful [spawn_validator_and_fullnode_set]: the sizes of the four
    instance lists, and with the vault backend a successful
    [generate_genesis] on the allocated nodes. *)
Lemma spawn_set_Ok nv nf lsr backend tag overrides clean w vals lsrs vaults fns w' :
  spawn_validator_and_fullnode_set nv nf lsr backend tag overrides clean w =
    (Ok (vals, lsrs, vaults, fns), w') ->
  length vals = Z.to_nat nv /\ length fns = Z.to_nat nv * Z.to_nat nf /\
  length lsrs = (if lsr then Z.to_nat nv else 0) /\
  length vaults = (if lsr && String.eqb backend "vault" then Z.to_nat nv else 0) /\
  (lsr && String.eqb backend "vault" = true -> (1 <= nv)%Z ->
   exists vn vnodes fnodes wg wg',
     length vn = Z.to_nat nv /\ length fnodes = Z.to_nat nv * Z.to_nat nf /\
     generate_genesis nv vn vnodes fnodes wg = (Ok tt, wg')).
Proof.
  intros H. unfold spawn_validator_and_fullnode_set in H. cbv zeta in H.
  apply bind_Ok_inv in H. destruct H as [[vn ln] [w1 [Ht H]]].
  assert (Lv : length vn = (if lsr && String.eqb backend "vault" then Z.to_nat nv else 0)).
  { destruct lsr; simpl.
    - apply bind_Ok_inv in Ht. destruct Ht as [vn' [w2 [H2 Ht]]].
      apply bind_Ok_inv in Ht. destruct Ht as [ln' [w3 [_ Ht]]].
      apply ret_Ok_inv in Ht. destruct Ht as [E _]. injection E as <- _.
      destruct (String.eqb backend "vault").
      + apply alloc_all_Ok in H2. apply H2.
      + apply ret_Ok_inv in H2. destruct H2 as [<- _]. reflexivity.
    - apply ret_Ok_inv in Ht. destruct Ht as [E _]. injection E as <- _. reflexivity. }
  assert (Ll : length ln = (if lsr then Z.to_nat nv else 0)).
  { destruct lsr; simpl.
    - apply bind_Ok_inv in Ht. destruct Ht as [vn' [w2 [_ Ht]]].
      apply bind_Ok_inv in Ht. destruct Ht as [ln' [w3 [H3 Ht]]].
      apply ret_Ok_inv in Ht. destruct Ht as [E _]. injection E as _ <-.
      apply alloc_all_Ok in H3. apply H3.
    - apply ret_Ok_inv in Ht. destruct Ht as [E _]. injection E as _ <-. reflexivity. }
  apply bind_Ok_inv in H. destruct H as [lsrs' [w2 [H2 H]]].
  apply try_join_all_Ok_length in H2. rewrite length_map, length_enumerate in H2.
  apply bind_Ok_inv in H. destruct H as [vaults' [w3 [H3 H]]].
  apply try_join_all_Ok_length in H3. rewrite length_map, length_enumerate in H3.
  apply bind_Ok_inv in H. destruct H as [vnodes [w4 [H4 H]]].
  apply bind_Ok_inv in H. destruct H as [fnodes [w5 [H5 H]]].
  apply try_join_all_Ok_length in H5. rewrite length_flat_map_map, !length_seq in H5.
  apply bind_Ok_inv in H. destruct H as [u [w6 [H6 H]]].
  apply bind_Ok_inv in H. destruct H as [vals' [w7 [H7 H]]].
  apply try_join_all_Ok_length in H7. rewrite length_map, length_seq in H7.
  apply bind_Ok_inv in H. destruct H as [fns' [w8 [H8 H]]].
  apply try_join_all_Ok_length in H8. rewrite length_flat_map_map, !length_seq in H8.
  apply ret_Ok_inv in H. destruct H as [E _]. injection E as <- <- <- <-.
  split; [exact H7 |]. split; [exact H8 |].
  split; [congruence |]. split; [congruence |].
  intros Hb Hn. rewrite Hb in Lv.
  destruct vn as [|v0 vs]; [simpl in Lv; lia |].
  apply bind_Ok_inv in H6. destruct H6 as [u' [w9 [_ H6]]]. destruct u.
  exists (v0 :: vs), vnodes, fnodes, w9, w6. auto.
Qed.

(** A successful bootstrap run: the sizes of the instance lists of the
    cluster it returns, and the outcome of its spawn stage. *)
Lemma setup_cluster_Ok_spawn tag params clean w c w' :
  setup_cluster tag params clean w = (Ok c, w') ->
  exists w1,
    spawn_validator_and_fullnode_set (num_validators params) (fullnodes_per_validator params)
      (enable_lsr params) (lsr_backend params) tag (cfg_overrides params) clean w1 =
      (Ok (cl_validators c, cl_lsrs c, cl_vaults c, cl_fullnodes c), w').
Proof.
  intros H. unfold setup_cluster in H.
  apply bind_Ok_inv in H. destruct H as [u1 [w1 [_ H]]].
  apply bind_Ok_inv in H. destruct H as [ws [w2 [_ H]]].
  apply bind_Ok_inv in H. destruct H as [u3 [w3 [_ H]]].
  apply bind_Ok_inv in H. destruct H as [[[[vals lsrs] vaults] fns] [w4 [H4 H]]].
  apply ret_Ok_inv in H. destruct H as [<- <-].
  apply map_err_Ok_inv in H4. exists w3. exact H4.
Qed.

(** X8: a successful run returns a cluster with [num_validators]
    validators, [num_validators * fullnodes_per_validator] fullnodes,
    [num_validators] LSRs when the secret tier is enabled (none otherwise),
    and [num_validators] vaults when it is enabled with the vault backend
    (none otherwise). *)
Theorem cluster_sizes tag params clean w c w' :
  setup_cluster tag params clean w = (Ok c, w') ->
  length (cl_validators c) = Z.to_nat (num_validators params) /\
  length (cl_fullnodes c) =
    Z.to_nat (num_validators params) * Z.to_nat (fullnodes_per_validator params) /\
  length (cl_lsrs c) = (if enable_lsr params then Z.to_nat (num_validators params) else 0) /\
  length (cl_vaults c) =
    (if enable_lsr params && String.eqb (lsr_backend params) "vault"
     then Z.to_nat (num_validators params) else 0).
Proof.
  intros H. apply setup_cluster_Ok_spawn in H. destruct H as [w1 H].
  apply spawn_set_Ok in H. tauto.
Qed.

Lemma register_validator_Ok_inv vnodes fnodes tp x w w' :
  register_validator vnodes fnodes tp x w = (Ok tt, w') ->
  nth_error vnodes (fst x) <> None /\ nth_error fnodes (fst x) <> None.
Proof.
  destruct x as [i node]. unfold register_validator. cbv zeta. intros H.
  apply bind_Ok_inv in H. destruct H as [u1 [w1 [_ H]]].
  apply bind_Ok_inv in H. destruct H as [u2 [w2 [_ H]]].
  apply bind_Ok_inv in H. destruct H as [vn [w3 [H3 H]]].
  apply index_Ok_inv in H3. destruct H3 as [H3 _].
  apply bind_Ok_inv in H. destruct H as [va [w4 [_ H]]].
  apply bind_Ok_inv in H. destruct H as [fn [w5 [H5 _]]].
  apply index_Ok_inv in H5. destruct H5 as [H5 _].
  simpl. rewrite H3, H5. split; discriminate.
Qed.

(** A successful [generate_genesis]: the vault node list is not empty, and
    the validator and fullnode node lists have an entry for each of its
    indices. *)
Lemma generate_genesis_Ok_lengths nv vault_nodes validator_nodes fullnode_nodes w u w' :
  generate_genesis nv vault_nodes validator_nodes fullnode_nodes w = (Ok u, w') ->
  vault_nodes <> [] /\ length vault_nodes <= length validator_nodes /\
  length vault_nodes <= length fullnode_nodes.
Proof.
  intros H. unfold generate_genesis in H. cbv zeta in H.
  apply bind_Ok_inv in H. destruct H as [u1 [w1 [_ H]]].
  apply bind_Ok_inv in H. destruct H as [u2 [w2 [_ H]]].
  apply bind_Ok_inv in H. destruct H as [u3 [w3 [_ H]]].
  apply bind_Ok_inv in H. destruct H as [v0 [w4 [H4 H]]].
  apply index_Ok_inv in H4. destruct H4 as [H4 _].
  apply bind_Ok_inv in H. destruct H as [u5 [w5 [_ H]]].
  apply bind_Ok_inv in H. destruct H as [u6 [w6 [H6 _]]].
  assert (Hne : vault_nodes <> []) by (intros ->; discriminate).
  split; [exact Hne |].
  destruct (nth_error vault_nodes (pred (length vault_nodes))) as [x|] eqn:Ex.
  - destruct (for_each_Ok_inv _ _ _ _ _ H6 _ (In_enumerate _ _ _ Ex)) as [w7 [w8 Hr]].
    apply register_validator_Ok_inv in Hr. simpl in Hr. destruct Hr as [Hv Hf].
    apply nth_error_Some in Hv, Hf.
    destruct vault_nodes; [contradiction | simpl in *; lia].
  - apply nth_error_None in Ex. destruct vault_nodes; [contradiction | simpl in *; lia].
Qed.

(** X9: [generate_genesis] succeeds only when it is given at least one vault
    node and at least as many validator nodes and fullnode nodes as vault
    nodes: it indexes the vault nodes at 0, and the validator and fullnode
    node lists at the index of each vault node. *)
Theorem generate_genesis_needs_nodes nv vault_nodes validator_nodes fullnode_nodes w u w' :
  generate_genesis nv vault_nodes validator_nodes fullnode_nodes w = (Ok u, w') ->
  vault_nodes <> [] /\ length vault_nodes <= length validator_nodes /\
  length vault_nodes <= length fullnode_nodes.
Proof. apply generate_genesis_Ok_lengths. Qed.

(** X10: with the secret tier enabled, the vault backend, at least one
    validator and no fullnodes per validator, the bootstrap run never
    succeeds: the genesis pipeline indexes the (empty) fullnode node list at
    the index of each validator. *)
Theorem no_fullnodes_vault_fails tag params clean :
  enable_lsr params = true -> lsr_backend params = "vault" ->
  (1 <= num_validators params)%Z -> (fullnodes_per_validator params <= 0)%Z ->
  forall w, not_ok (fst (setup_cluster tag params clean w)).
Proof.
  intros Hl Hb Hn Hf w.
  destruct (setup_cluster tag params clean w) as [[c| |] w'] eqn:E; simpl; [| exact I ..].
  apply setup_cluster_Ok_spawn in E. destruct E as [w1 E].
  apply spawn_set_Ok in E. destruct E as [_ [_ [_ [_ G]]]].
  rewrite Hl, Hb in G. destruct (G eq_refl Hn) as [vn [vnodes [fnodes [wg [wg' [L1 [L2 Hg]]]]]]].
  apply generate_genesis_Ok_lengths in Hg. destruct Hg as [_ [_ Hle]].
  assert (Z.to_nat (fullnodes_per_validator params) = 0) as Z0 by lia.
  rewrite L1, L2, Z0, Nat.mul_0_r in Hle. lia.
Qed.

Lemma KeyErrors_ret {A} url (a : A) : KeyErrors url (ret a).
Proof.
  intros w. exists []. simpl. rewrite app_nil_r.
  split; [reflexivity |]. split; [constructor |]. split; [discriminate |].
  split; [constructor | discriminate].
Qed.

Lemma KeyErrors_bind {A B} url (m : M A) (k : A -> M B) :
  KeyErrors url m -> (forall a, KeyErrors url (k a)) -> KeyErrors url (bind m k).
Proof.
  intros Hm Hk w. destruct (Hm w) as [t1 [E1 [C1 [P1 [O1 R1]]]]]. unfold bind.
  destruct (m w) as [[a|e|p] w1]; simpl in *.
  - destruct (Hk a w1) as [t2 [E2 [C2 [P2 [O2 R2]]]]]. specialize (O1 eq_refl).
    exists (t1 ++ t2). split; [rewrite E2, E1, app_assoc; reflexivity |].
    split; [apply Forall_app; split; assumption |]. split; [exact P2 |]. split.
    + intros Hok. apply Forall_app. split; [exact O1 | apply O2, Hok].
    + intros e He. destruct (R2 e He) as [t0 [key [msg [-> [He' F0]]]]].
      exists (t1 ++ t0), key, msg. rewrite <- app_assoc.
      split; [reflexivity |]. split; [exact He' |]. apply Forall_app. split; assumption.
  - exists t1. split; [exact E1 |]. split; [exact C1 |]. split; [discriminate |].
    split; [discriminate |].
    intros e0 He. injection He as <-. exact (R1 e eq_refl).
  - destruct (P1 p eq_refl).
Qed.

Lemma KeyErrors_create url key :
  KeyErrors url (map_err (fun e => cat ["Failed to create "; key; " : "; e]) (create_key url key)).
Proof.
  intros w. unfold map_err, create_key, call_unit, bind, call, unit_reply.
  exists [Ev (CreateKey url key) (answer (trace w) (CreateKey url key))].
  split; [destruct (answer (trace w) (CreateKey url key)); reflexivity |].
  split; [repeat constructor; exists key; reflexivity |].
  destruct (answer (trace w) (CreateKey url key)) as [msg| | | |]; simpl;
    (split; [discriminate |]).
  - split; [discriminate |]. intros e He. injection He as <-.
    exists [], key, msg. split; [reflexivity | split; [reflexivity | constructor]].
  - split; [intros _; repeat constructor | discriminate].
  - split; [intros _; repeat constructor | discriminate].
  - split; [intros _; repeat constructor | discriminate].
  - split; [intros _; repeat constructor | discriminate].
Qed.

Lemma KeyErrors_for_each {A} url (f : A -> M unit) l :
  (forall x, In x l -> KeyErrors url (f x)) -> KeyErrors url (for_each f l).
Proof.
  induction l as [|x l IH]; intros H; simpl; [apply KeyErrors_ret |].
  apply KeyErrors_bind; [apply H; left; reflexivity |].
  intros _. apply IH. intros; apply H; right; assumption.
Qed.

(** X11: the key-creation closure of [initialize_vault] (the body run by
    [spawn_blocking]) creates keys only, all in the vault at the internal IP
    of the node it is given, and never panics; it fails only right after a
    failed key creation, with the error ["Failed to create <key> : <message>"]
    naming that key and carrying the store's message, all earlier key
    creations having succeeded; when it succeeds every key creation
    succeeded. *)
Theorem initialize_vault_key_errors i node :
  KeyErrors (vault_url (internal_ip node)) (initialize_vault i node).
Proof.
  unfold initialize_vault. cbv zeta. apply KeyErrors_bind.
  - destruct (Nat.eqb i 0); [apply KeyErrors_create | apply KeyErrors_ret].
  - intros _. apply KeyErrors_for_each. intros; apply KeyErrors_create.
Qed.

Lemma Follows_bind_assoc {X A B C} (proj : op -> list X) (m : M A) (f : A -> M B)
    (g : B -> M C) E :
  Follows proj (bind m (fun x => bind (f x) g)) E -> Follows proj (bind (bind m f) g) E.
Proof.
  intros H w. specialize (H w). unfold bind in *.
  destruct (m w) as [[a|e|p] w1]; [destruct (f a w1) as [[b|e|p] w2] | |]; exact H.
Qed.

Lemma Follows_bind_ret {X A B} (proj : op -> list X) (a : A) (k : A -> M B) E :
  Follows proj (k a) E -> Follows proj (bind (ret a) k) E.
Proof. intros H w. exact (H w). Qed.

Lemma Follows_bind_panic {X A B} (proj : op -> list X) e (k : A -> M B) E :
  Follows proj (bind (panic e) k) E.
Proof.
  apply Follows_nil_trace. intros w. split; [reflexivity | cbv [bind panic fst is_ok]; discriminate].
Qed.

Lemma Follows_bind_never {X A B} (proj : op -> list X) (m : M A) (k : A -> M B) E :
  Follows proj m [] -> (forall w a w1, m w <> (Ok a, w1)) -> Follows proj (bind m k) E.
Proof.
  intros Hm Hn.
  exact (Follows_bind_post proj m k [] E (fun _ => False) Hm
           (fun w a w1 H => Hn w a w1 H) (fun a (f : False) => match f with end)).
Qed.

Lemma Follows_parse_failure {X B} (proj : op -> list X) s (k : NetworkAddress -> M B) E :
  proj (ParseAddr s) = [] ->
  Follows proj (bind (log (ParseAddr s) (RErr "invalid network address") ;;;
                      panic "Failed to parse network address") k) E.
Proof.
  intros Hp. apply Follows_bind_never.
  - apply Follows_bind_nil; [rewrite <- Hp; apply Follows_log | intros; apply Follows_panic].
  - intros w a w1 H. cbv [bind log panic] in H. discriminate H.
Qed.

Lemma Follows_parse_success {X B} (proj : op -> list X) s a (k : NetworkAddress -> M B) E :
  proj (ParseAddr s) = [] -> Follows proj (k a) E ->
  Follows proj (bind (log (ParseAddr s) RUnit ;;; ret a) k) E.
Proof.
  intros Hp Hk. apply Follows_bind_assoc.
  apply Follows_bind_nil; [rewrite <- Hp; apply Follows_log | intros _].
  apply Follows_bind_ret, Hk.
Qed.

(** The address registration of one vault node. *)
Lemma register_validator_addresses validator_nodes fullnode_nodes token_path x :
  Follows validator_config_call
    (register_validator validator_nodes fullnode_nodes token_path x)
    (registered_addresses validator_nodes fullnode_nodes (fst x)).
Proof.
  destruct x as [i node].
  unfold register_validator, registered_addresses, node_address, index,
    parse_network_address, genesis_helper.
  cbv beta iota zeta. simpl fst.
  apply Follows_bind_nil;
    [eapply Follows_eq; [apply Follows_map_err, Follows_call_unit | reflexivity] | intros _].
  apply Follows_bind_nil;
    [eapply Follows_eq; [apply Follows_map_err, Follows_call_unit | reflexivity] | intros _].
  destruct (nth_error validator_nodes i) as [vn|]; [apply Follows_bind_ret | apply Follows_bind_panic].
  destruct (parse_addr (cat ["/ip4/"; internal_ip vn; "/tcp/6180"])) as [va|];
    [apply Follows_parse_success; [reflexivity |] | apply Follows_parse_failure; reflexivity].
  destruct (nth_error fullnode_nodes i) as [fn|]; [apply Follows_bind_ret | apply Follows_bind_panic].
  destruct (parse_addr (cat ["/ip4/"; internal_ip fn; "/tcp/6180"])) as [fa|];
    [apply Follows_parse_success; [reflexivity |] | apply Follows_parse_failure; reflexivity].
  apply Follows_bind_last;
    [eapply Follows_eq; [apply Follows_map_err, Follows_call_unit | reflexivity] | intros _].
  eapply Follows_eq; [apply Follows_map_err, Follows_call_unit | reflexivity].
Qed.

(** X12: the validator configurations [generate_genesis] registers are, in
    the order of the vault nodes, one per vault node index [i] whose
    validator and fullnode nodes exist and whose two addresses
    ["/ip4/<internal ip>/tcp/6180"] parse: owner [validator_pod_name i], the
    address of validator node [i] and the address of fullnode node [i].
    On success it registered exactly these. *)
Theorem genesis_registered_addresses nv vault_nodes validator_nodes fullnode_nodes :
  Follows validator_config_call
    (generate_genesis nv vault_nodes validator_nodes fullnode_nodes)
    (flat_map (registered_addresses validator_nodes fullnode_nodes)
              (seq 0 (length vault_nodes))).
Proof.
  unfold generate_genesis. cbv zeta.
  do 3 (apply Follows_bind_nil;
        [apply Follows_of_Seg; seg; simpl; (apply Forall_cons; [| apply Forall_nil]); reflexivity
        | intros _]).
  apply Follows_bind_nil; [apply Follows_index | intros v0].
  apply Follows_bind_nil;
    [apply Follows_of_Seg; seg; simpl; (apply Forall_cons; [| apply Forall_nil]); reflexivity
    | intros _].
  apply Follows_bind_last.
  - eapply Follows_eq.
    + apply (Follows_for_each _ _
               (fun x => registered_addresses validator_nodes fullnode_nodes (fst x))).
      intros x _. apply register_validator_addresses.
    + unfold enumerate. apply flat_map_enumerate_fst.
  - intros _. apply Follows_of_Seg. seg; simpl; (apply Forall_cons; [| apply Forall_nil]); reflexivity.
Qed.

End Bootstrap.

(** The bootstrap run on the concrete inputs of [Demo]. *)
Notation demo_setup ans parse :=
  (setup_cluster Demo.vpn Demo.fpn Demo.lpn Demo.kpn parse Demo.toml ans Demo.gen_out).

(** C1 (corrected): with non-negative validator and fullnode counts, the
    instance count computed with u32 arithmetic equals
    num_validators + num_validators * fullnodes_per_validator + roleExtra
    whenever that sum is below 2^32. *)
Theorem instance_count_formula params :
  (0 <= num_validators params)%Z -> (0 <= fullnodes_per_validator params)%Z ->
  (claimed_instance_count params < 2 ^ 32)%Z ->
  instance_count params = claimed_instance_count params.
Proof.
  unfold instance_count, claimed_instance_count, u32. cbv zeta. intros H1 H2 H3.
  set (nv := num_validators params) in *. set (fpv := fullnodes_per_validator params) in *.
  destruct (enable_lsr params), (String.eqb (lsr_backend params) "vault");
    rewrite (Z.mod_small (fpv * nv) (2 ^ 32)) by nia;
    rewrite (Z.mod_small (nv + fpv * nv) (2 ^ 32)) by nia;
    try rewrite (Z.mod_small (nv * 2) (2 ^ 32)) by nia;
    try rewrite (Z.mod_small (nv + fpv * nv + nv * 2) (2 ^ 32)) by nia;
    try rewrite (Z.mod_small (nv + fpv * nv + nv) (2 ^ 32)) by nia;
    lia.
Qed.

(** C1 at four validators with the vault backend. *)
Lemma instance_count_formula_witness :
  (0 <= num_validators (Demo.params 4 None "vault"))%Z /\
  (0 <= fullnodes_per_validator (Demo.params 4 None "vault"))%Z /\
  (claimed_instance_count (Demo.params 4 None "vault") < 2 ^ 32)%Z /\
  instance_count (Demo.params 4 None "vault") =
    claimed_instance_count (Demo.params 4 None "vault").
Proof.
  assert (H1 : (0 <= num_validators (Demo.params 4 None "vault"))%Z) by (vm_compute; discriminate).
  assert (H2 : (0 <= fullnodes_per_validator (Demo.params 4 None "vault"))%Z)
    by (vm_compute; discriminate).
  assert (H3 : (claimed_instance_count (Demo.params 4 None "vault") < 2 ^ 32)%Z)
    by (vm_compute; reflexivity).
  exact (conj H1 (conj H2 (conj H3 (instance_count_formula _ H1 H2 H3)))).
Defined.

(** C1: with [2^31] validators and one fullnode each, the count wraps to 0
    while the formula gives [2^32]. *)
Lemma instance_count_overflow :
  instance_count (mkParams 1 [] (2 ^ 31) (Some false) "vault") = 0%Z /\
  claimed_instance_count (mkParams 1 [] (2 ^ 31) (Some false) "vault") = (2 ^ 32)%Z.
Proof. split; vm_compute; reflexivity. Qed.

(** C3: with two validators, the fullnode of validator 1 is spawned with the
    address of validator node 1 as seed, not that of validator node 0. *)
Lemma fullnode_seed_of_own_validator :
  exists n0 fc r,
    nth_error (trace (snd (demo_setup Demo.answer_ok Demo.parse_ok "tag"
                             (Demo.params 2 (Some false) "vault") true (mkWorld [] [])))) 4 =
      Some (Ev (AllocateNode (Demo.vpn 0)) (RNode n0)) /\
    nth_error (trace (snd (demo_setup Demo.answer_ok Demo.parse_ok "tag"
                             (Demo.params 2 (Some false) "vault") true (mkWorld [] [])))) 15 =
      Some (Ev (SpawnNewInstance {| validator_group := new_for_index 1;
                                    application_config := Fullnode fc |}) r) /\
    fc_seed_peer_ip fc <> internal_ip n0.
Proof.
  vm_compute. do 3 eexists. split; [reflexivity | split; [reflexivity |]].
  vm_compute. discriminate.
Qed.

(** C7 on a run with the secret tier disabled. *)
Lemma no_lsr_no_secret_tier_witness :
  enable_lsr (Demo.params 2 (Some false) "vault") = false /\
  Seg (forall_sp (no_secret_tier Demo.vpn Demo.fpn))
    (demo_setup Demo.answer_ok Demo.parse_ok "tag" (Demo.params 2 (Some false) "vault") true).
Proof.
  split; [reflexivity |].
  apply no_lsr_no_secret_tier. reflexivity.
Defined.



(** C8: with an address parser that rejects everything, the first address
    parsed is the last call and the run panics. *)
Lemma bad_address_aborts_witness :
  exists t,
    trace (snd (demo_setup Demo.answer_ok Demo.parse_bad "tag" (Demo.params 1 None "vault")
                  true (mkWorld [] []))) = t /\
    nth_error t 25 = Some (Ev (ParseAddr "/ip4/10.0.val-0/tcp/6180")
                              (RErr "invalid network address")) /\
    S 25 = length t /\
    is_panic (fst (demo_setup Demo.answer_ok Demo.parse_bad "tag" (Demo.params 1 None "vault")
                     true (mkWorld [] []))).
Proof.
  destruct (bad_address_aborts Demo.vpn Demo.fpn Demo.lpn Demo.kpn Demo.parse_bad Demo.toml
              Demo.answer_ok Demo.gen_out "tag" (Demo.params 1 None "vault") true (mkWorld [] []))
    as [t [Et H]].
  change ((trace (mkWorld [] []) ++ t)%list) with t in Et.
  assert (Hn : nth_error t 25 = Some (Ev (ParseAddr "/ip4/10.0.val-0/tcp/6180")
                                         (RErr "invalid network address")))
    by (rewrite <- Et; vm_compute; reflexivity).
  exists t. split; [exact Et | split; [exact Hn |]].
  exact (H _ _ _ Hn).
Defined.

(** C6 on a successful run with two validators. *)
Lemma genesis_copies_witness :
  exists c w',
    demo_setup Demo.answer_ok Demo.parse_ok "tag" (Demo.params 2 None "vault") true
      (mkWorld [] []) = (Ok c, w') /\
    enable_lsr (Demo.params 2 None "vault") = true /\
    lsr_backend (Demo.params 2 None "vault") = "vault" /\
    (1 <= num_validators (Demo.params 2 None "vault"))%Z /\
    exists t vnodes b, trace w' = (trace (mkWorld [] []) ++ t)%list /\
      length vnodes = Z.to_nat (num_validators (Demo.params 2 None "vault")) /\
      incl (alloc_events Demo.vpn 0 vnodes) t /\
      In (Ev (ReadFile GENESIS_PATH) (RText b)) t /\
      map ev_op (filter (fun e => is_put (ev_op e)) t) =
        map (fun x => PutFile (name (snd x)) (Demo.vpn (fst x))
                              "/opt/libra/etc/genesis2.blob" b)
            (enumerate vnodes).
Proof.
  destruct (demo_setup Demo.answer_ok Demo.parse_ok "tag" (Demo.params 2 None "vault") true
              (mkWorld [] [])) as [res w'] eqn:E.
  destruct res as [c | e | m]; [| vm_compute in E; discriminate ..].
  exists c, w'. split; [reflexivity |].
  assert (H1 : enable_lsr (Demo.params 2 None "vault") = true) by reflexivity.
  assert (H2 : lsr_backend (Demo.params 2 None "vault") = "vault") by reflexivity.
  assert (H3 : (1 <= num_validators (Demo.params 2 None "vault"))%Z)
    by (vm_compute; discriminate).
  split; [exact H1 | split; [exact H2 | split; [exact H3 |]]].
  exact (proj2 (genesis_copies Demo.vpn Demo.fpn Demo.lpn Demo.kpn Demo.parse_ok Demo.toml
                  Demo.answer_ok Demo.gen_out "tag" (Demo.params 2 None "vault") true)
           _ _ _ E H1 H2 H3).
Defined.

(** C10 on a successful run with one validator and no [--enable-lsr]. *)
Lemma lsr_enabled_by_default_witness :
  enable_lsr (mkParams 1 ["a=1"] 1 None "vault") = true /\
  exists c w',
    demo_setup Demo.answer_ok Demo.parse_ok "tag" (mkParams 1 ["a=1"] 1 None "vault") true
      (mkWorld [] []) = (Ok c, w') /\
    exists t, trace w' = (trace (mkWorld [] []) ++ t)%list /\
      (forall i, i < Z.to_nat 1 ->
         (exists n, In (Ev (AllocateNode (Demo.kpn i)) (RNode n)) t) /\
         (exists n, In (Ev (AllocateNode (Demo.lpn i)) (RNode n)) t)) /\
      exists t1 tg t2, t = (t1 ++ tg ++ t2)%list /\
        flat_map (fun e => remote_kind (ev_op e)) tg =
          claimed_genesis_order (map Demo.vpn (seq 0 (Z.to_nat 1)))
                                (map Demo.vpn (seq 0 (Z.to_nat 1))).
Proof.
  destruct (lsr_enabled_by_default Demo.vpn Demo.fpn Demo.lpn Demo.kpn Demo.parse_ok Demo.toml
              Demo.answer_ok Demo.gen_out "tag" 1 ["a=1"] 1 "vault" true) as [Hd H].
  split; [exact Hd |].
  destruct (demo_setup Demo.answer_ok Demo.parse_ok "tag" (mkParams 1 ["a=1"] 1 None "vault")
              true (mkWorld [] [])) as [res w'] eqn:E.
  destruct res as [c | e | m]; [| vm_compute in E; discriminate ..].
  exists c, w'. split; [reflexivity |].
  apply (H _ _ _ E). vm_compute. discriminate.
Defined.

Lemma cleanup_failure_aborts_witness :
  Demo.answer_cleanup_fail (trace (mkWorld [] [])) Cleanup = RErr "cleanup denied" /\
  demo_setup Demo.answer_cleanup_fail Demo.parse_ok "tag" (Demo.params 2 None "vault") true
    (mkWorld [] []) =
    (Err (cat ["cleanup on startup failed: "; "cleanup denied"]),
     mkWorld (trace (mkWorld [] []) ++ [Ev Cleanup (RErr "cleanup denied")])%list
             (files (mkWorld [] []))).
Proof.
  split; [reflexivity |].
  apply (cleanup_failure_aborts Demo.vpn Demo.fpn Demo.lpn Demo.kpn Demo.parse_ok Demo.toml
           Demo.answer_cleanup_fail Demo.gen_out "tag" (Demo.params 2 None "vault") true
           (mkWorld [] []) "cleanup denied").
  reflexivity.
Defined.

Lemma workspace_failure_panics_witness :
  Demo.answer_ws_fail (trace (mkWorld [] [])) Cleanup = RUnit /\
  (forall msg, RUnit <> RErr msg) /\
  Demo.answer_ws_fail (trace (mkWorld [] []) ++ [Ev Cleanup RUnit])%list GetWorkspace =
    RErr "no workspace" /\
  demo_setup Demo.answer_ws_fail Demo.parse_ok "tag" (Demo.params 2 None "vault") true
    (mkWorld [] []) =
    (Panic (cat ["Failed to get workspace"; ": "; "no workspace"]),
     mkWorld (trace (mkWorld [] []) ++ [Ev Cleanup RUnit; Ev GetWorkspace (RErr "no workspace")])%list
             (files (mkWorld [] []))).
Proof.
  split; [reflexivity |]. split; [intros msg; discriminate |]. split; [reflexivity |].
  apply (workspace_failure_panics Demo.vpn Demo.fpn Demo.lpn Demo.kpn Demo.parse_ok Demo.toml
           Demo.answer_ws_fail Demo.gen_out "tag" (Demo.params 2 None "vault") true
           (mkWorld [] []) RUnit "no workspace");
    [reflexivity | intros msg; discriminate | reflexivity].
Defined.

Lemma scaling_requests_witness :
  Demo.answer_ok (trace (mkWorld [] [])) Cleanup = RUnit /\
  (forall msg, RUnit <> RErr msg) /\
  Demo.answer_ok (trace (mkWorld [] []) ++ [Ev Cleanup RUnit])%list GetWorkspace = RText "ws" /\
  exists t,
    trace (snd (demo_setup Demo.answer_ok Demo.parse_ok "tag" (Demo.params 2 None "vault") true
                  (mkWorld [] []))) =
      (trace (mkWorld [] []) ++ [Ev Cleanup RUnit; Ev GetWorkspace (RText "ws")] ++ t)%list /\
    is_prefix (flat_map (fun e => asg_call (ev_op e)) t)
      [(0%Z, 0%Z, cat ["ws"; "-k8s-testnet-validators"], true, true);
       (instance_count (Demo.params 2 None "vault"), 5%Z,
        cat ["ws"; "-k8s-testnet-validators"], true, false)] /\
    (is_ok (fst (demo_setup Demo.answer_ok Demo.parse_ok "tag" (Demo.params 2 None "vault") true
                  (mkWorld [] []))) = true ->
     flat_map (fun e => asg_call (ev_op e)) t =
       [(0%Z, 0%Z, cat ["ws"; "-k8s-testnet-validators"], true, true);
        (instance_count (Demo.params 2 None "vault"), 5%Z,
         cat ["ws"; "-k8s-testnet-validators"], true, false)]).
Proof.
  split; [reflexivity |]. split; [intros msg; discriminate |]. split; [reflexivity |].
  apply (scaling_requests Demo.vpn Demo.fpn Demo.lpn Demo.kpn Demo.parse_ok Demo.toml
           Demo.answer_ok Demo.gen_out "tag" (Demo.params 2 None "vault") true
           (mkWorld [] []) RUnit "ws");
    [reflexivity | intros msg; discriminate | reflexivity].
Defined.

Lemma cluster_sizes_witness :
  exists c w',
    demo_setup Demo.answer_ok Demo.parse_ok "tag" (Demo.params 2 None "vault") true
      (mkWorld [] []) = (Ok c, w') /\
    length (cl_validators c) = 2 /\ length (cl_fullnodes c) = 2 /\
    length (cl_lsrs c) = 2 /\ length (cl_vaults c) = 2.
Proof.
  destruct (demo_setup Demo.answer_ok Demo.parse_ok "tag" (Demo.params 2 None "vault") true
              (mkWorld [] [])) as [res w'] eqn:E.
  destruct res as [c | e | m]; [| vm_compute in E; discriminate ..].
  exists c, w'. split; [reflexivity |].
  exact (cluster_sizes Demo.vpn Demo.fpn Demo.lpn Demo.kpn Demo.parse_ok Demo.toml
           Demo.answer_ok Demo.gen_out "tag" (Demo.params 2 None "vault") true
           (mkWorld [] []) c w' E).
Defined.

Lemma generate_genesis_needs_nodes_witness :
  exists u w',
    generate_genesis Demo.vpn Demo.parse_ok Demo.toml Demo.answer_ok Demo.gen_out 1
      [Demo.node0] [Demo.node0] [Demo.node0] (mkWorld [] []) = (Ok u, w') /\
    [Demo.node0] <> [] /\ length [Demo.node0] <= length [Demo.node0] /\
    length [Demo.node0] <= length [Demo.node0].
Proof.
  destruct (generate_genesis Demo.vpn Demo.parse_ok Demo.toml Demo.answer_ok Demo.gen_out 1
              [Demo.node0] [Demo.node0] [Demo.node0] (mkWorld [] [])) as [res w'] eqn:E.
  destruct res as [u | e | m]; [| vm_compute in E; discriminate ..].
  exists u, w'. split; [reflexivity |].
  eapply generate_genesis_needs_nodes. exact E.
Defined.

Lemma no_fullnodes_vault_fails_witness :
  enable_lsr (mkParams 0 ["a=1"] 2 None "vault") = true /\
  lsr_backend (mkParams 0 ["a=1"] 2 None "vault") = "vault" /\
  (1 <= num_validators (mkParams 0 ["a=1"] 2 None "vault"))%Z /\
  (fullnodes_per_validator (mkParams 0 ["a=1"] 2 None "vault") <= 0)%Z /\
  not_ok (fst (demo_setup Demo.answer_ok Demo.parse_ok "tag" (mkParams 0 ["a=1"] 2 None "vault")
                 true (mkWorld [] []))).
Proof.
  split; [reflexivity |]. split; [reflexivity |].
  split; [simpl; lia |]. split; [simpl; lia |].
  apply (no_fullnodes_vault_fails Demo.vpn Demo.fpn Demo.lpn Demo.kpn Demo.parse_ok Demo.toml
           Demo.answer_ok Demo.gen_out "tag" (mkParams 0 ["a=1"] 2 None "vault") true);
    [reflexivity | reflexivity | simpl; lia | simpl; lia].
Defined.
